(** * NotionAPI, package [transform]: [groupBlocks] and [transformBlockMap]

    A shallow embedding of [src/packages/transform/src/util/groupBlocks.ts]
    (the file holds both [groupBlocks] and [transformBlockMap]) and the
    properties of the two functions.

    - JavaScript values that may be [undefined] are [option]s.
    - A call either returns, throws a [TypeError] (a property read on
      [undefined]), or does not return; see [outcome].
    - The block map is an association list of its own properties in
      [Object.keys] order; a property read that finds no own property
      goes on to [Object.prototype] (see [JSObject]). *)

From Stdlib Require Import String List ZArith QArith Lia Bool Relations.
Import ListNotations.
Close Scope Q_scope.
Local Open Scope string_scope.
Local Open Scope list_scope.

Set Implicit Arguments.

(** ** Outcomes of a call *)

Inductive exn : Type := TypeError.

Inductive outcome (A : Type) : Type :=
| Ret (a : A)          (* the call returns [a] *)
| Throw (e : exn)      (* the call throws *)
| Diverge.             (* the recursion does not come back within the fuel *)

Arguments Ret {A} a.
Arguments Throw {A} e.
Arguments Diverge {A}.

Definition bind {A B} (m : outcome A) (k : A -> outcome B) : outcome B :=
  match m with
  | Ret a => k a
  | Throw e => Throw e
  | Diverge => Diverge
  end.

Notation "x <- m ;; k" := (bind m (fun x => k))
  (at level 61, m at next level, right associativity).
Notation "' p <- m ;; k" := (bind m (fun x => let p := x in k))
  (at level 61, p pattern, m at next level, right associativity).

(** [xs.map(f)] for a callback that may throw: left to right, stopping at
    the first call that does not return. *)
Fixpoint mapM {A B} (f : A -> outcome B) (xs : list A) : outcome (list B) :=
  match xs with
  | [] => Ret []
  | x :: xs' => y <- f x ;; ys <- mapM f xs' ;; Ret (y :: ys)
  end.

(** [xs.forEach(f)] for a callback that updates captured variables [S]. *)
Fixpoint forEach {S A} (f : S -> A -> outcome S) (xs : list A) (s : S)
  : outcome S :=
  match xs with
  | [] => Ret s
  | x :: xs' => s' <- f s x ;; forEach f xs' s'
  end.

(** ** Plain JavaScript objects

    The block map and the rules are plain objects. A property read
    [o[k]] gives the own property [k] of [o] when there is one, and
    otherwise the member [k] of [Object.prototype] when [k] names one. *)

Module JSObject.

(** The property names of [Object.prototype]. *)
Definition prototypeNames : list string :=
  [ "constructor"; "__defineGetter__"; "__defineSetter__";
    "hasOwnProperty"; "__lookupGetter__"; "__lookupSetter__";
    "isPrototypeOf"; "propertyIsEnumerable"; "toString"; "valueOf";
    "__proto__"; "toLocaleString" ].

(** [k] names a member of [Object.prototype]. Each member is truthy (a
    function, or the prototype itself for [__proto__]) and has no
    property [value]. *)
Definition inherited (k : string) : bool :=
  existsb (String.eqb k) prototypeNames.

(** The members of [Object.prototype] that cannot be called with
    [(blockId, content, children)]: [__proto__] is no function, and
    [__defineGetter__] and [__defineSetter__] throw a [TypeError] when
    their second argument, here the content, is no function. *)
Definition unusable (k : string) : bool :=
  String.eqb k "__proto__" || String.eqb k "__defineGetter__"
  || String.eqb k "__defineSetter__".

End JSObject.

(** ** The block map of [notion-types] *)

Module NotionTypes.

Definition ID := string.

(** JavaScript numbers of the format bag are only passed through. *)
Definition number := Q.

(** [Decoration = [string] | [string, SubDecoration[]]] *)
Definition SubDecoration := list string.
Definition Decoration : Type := string * list SubDecoration.
Definition RichText := list Decoration.

Record Properties : Type := {
  title : option RichText;
  caption : option RichText;
  link : option RichText;
  checked : option RichText;
  language : option RichText;
  source : option RichText
}.

Record Format : Type := {
  page_icon : option string;
  block_color : option string;
  column_ratio : option number;
  block_aspect_ratio : option number;
  block_height : option number;
  block_width : option number;
  block_full_width : option bool;
  block_page_width : option bool;
  block_preserve_scale : option bool;
  display_source : option string;
  bookmark_icon : option string;
  bookmark_cover : option string
}.

Record BlockValue : Type := {
  type : string;
  properties : option Properties;
  format : option Format;
  content : option (list ID);
  collection_id : option string;
  view_ids : option (list string)
}.

(** An entry [{ role, value }] of the map; only [value] is read. *)
Record Block : Type := { value : option BlockValue }.

(** The own properties of the map, in [Object.keys] order; a key occurs
    once. *)
Definition BlockMap := list (ID * Block).

(** The own property [id] of the map. [blockMap[id]] is this entry
    when there is one; when there is none it is the member [id] of
    [Object.prototype] if [JSObject.inherited id], and [undefined]
    otherwise. *)
Fixpoint get (blockMap : BlockMap) (id : ID) : option Block :=
  match blockMap with
  | [] => None
  | (k, b) :: rest => if String.eqb k id then Some b else get rest id
  end.

(** [Object.keys(blockMap)]: the own keys. *)
Definition keys (blockMap : BlockMap) : list ID := map fst blockMap.

(** [blockMap[id]?.value]. A member of [Object.prototype] has no [value],
    so this is [undefined] unless [id] is an own key. *)
Definition valueAt (blockMap : BlockMap) (id : ID) : option BlockValue :=
  match get blockMap id with
  | Some b => value b
  | None => None
  end.

(** [blockMap[id]?.value?.type] *)
Definition typeAt (blockMap : BlockMap) (id : ID) : option string :=
  option_map type (valueAt blockMap id).

(** Truthiness of a [string | undefined]. *)
Definition truthy_str (s : option string) : bool :=
  match s with
  | Some s' => negb (String.eqb s' "")
  | None => false
  end.

(** [a !== b] on [string | undefined]. *)
Definition strict_neq (a b : option string) : bool :=
  match a, b with
  | Some x, Some y => negb (String.eqb x y)
  | None, None => false
  | _, _ => true
  end.

End NotionTypes.
Import NotionTypes.

(** ** JavaScript arrays written by index

    An element is [None] where the array has a hole. *)

Module JSArray.

Definition t (A : Type) := list (option A).

(** [a[i]]: [undefined] outside the array and at a hole. *)
Definition read {A} (a : t A) (i : Z) : option A :=
  if (i <? 0)%Z then None
  else match nth_error a (Z.to_nat i) with
       | Some x => x
       | None => None
       end.

Fixpoint write_nat {A} (a : t A) (n : nat) (x : A) : t A :=
  match n, a with
  | O, [] => [Some x]
  | O, _ :: a' => Some x :: a'
  | S n', [] => None :: write_nat [] n' x
  | S n', y :: a' => y :: write_nat a' n' x
  end.

(** [a[i] = x] for an index [0 <= i]: in place inside the array, and
    extending it (with holes) beyond its end. [groupBlocks] increments
    its index from [-1] before it writes, so no negative index is
    written. *)
Definition write {A} (a : t A) (i : Z) (x : A) : t A :=
  if (i <? 0)%Z then a else write_nat a (Z.to_nat i) x.

(** An array without holes. *)
Definition dense {A} (l : list A) : t A := map Some l.

End JSArray.

(** ** [groupBlocks] *)

Module GroupBlocks.

(** The variables captured by the two callbacks. *)
Record state : Type := {
  groups : JSArray.t (list ID);
  type : option string;
  index : Z
}.

(** Lines 9-12. *)
Definition init : state :=
  {| groups := []; type := None; index := (-1)%Z |}.

(** Lines 21-25: the guarded opening of a new group. *)
Definition openGroup (st : state) (blockType : option string) : state :=
  if truthy_str blockType && strict_neq blockType (type st) then
    let index' := (index st + 1)%Z in
    {| groups := JSArray.write (groups st) index' [];
       type := blockType;
       index := index' |}
  else st.

(** Line 27, [groups[index].push(blockId)]. *)
Definition push (st : state) (blockId : ID) : outcome state :=
  match JSArray.read (groups st) (index st) with
  | None => Throw TypeError
  | Some grp =>
      Ret {| groups := JSArray.write (groups st) (index st) (grp ++ [blockId]);
             type := type st;
             index := index st |}
  end.

(** Lines 18-28, the callback of the inner [forEach]. *)
Definition visitChild (blockMap : BlockMap) (st : state) (blockId : ID)
  : outcome state :=
  let blockType := typeAt blockMap blockId in
  push (openGroup st blockType) blockId.

(** Lines 14-32, the callback of the outer [forEach]. *)
Definition visitParent (blockMap : BlockMap) (st : state) (id : ID)
  : outcome state :=
  st' <- match valueAt blockMap id with
         | Some blockValue =>
             match content blockValue with
             | Some ids => forEach (visitChild blockMap) ids st
             | None => Ret st
             end
         | None => Ret st
         end ;;
  Ret {| groups := groups st'; type := None; index := index st' |}.

Definition groupBlocks (blockMap : BlockMap) : outcome (JSArray.t (list ID)) :=
  st <- forEach (visitParent blockMap) (keys blockMap) init ;;
  Ret (groups st).

(** The array of groups is [gs], without a hole, and [index] is its
    last position. *)
Definition tracks (gs : list (list ID)) (st : state) : Prop :=
  groups st = JSArray.dense gs /\ index st = (Z.of_nat (length gs) - 1)%Z.

End GroupBlocks.

(** ** [transformBlockMap] *)

Module Transform.

(** Modelled from the spec: the result type of [getTextContent], whose
    file [./util] is not among the sources. It is a sequence of
    [{ text, ...decorations }]; the bookmark case guards it with [|| []],
    so it may also be [undefined]. *)
Record TextSpan : Type := { text : string; marks : list SubDecoration }.
Definition TextContent := option (list TextSpan).

(** An entry of the table of contents, lines 110-114. *)
Record TocEntry : Type := {
  toc_id : ID;
  toc_level : option Z;
  toc_text : TextContent
}.

(** The shapes [content] is assigned by the cases of the switch;
    [CUndefined] where it is never assigned. *)
Inductive Content : Type :=
| CUndefined
| CText (spans : TextContent)
| CPageLink (title icon : option string)
| CList (text : TextContent) (start : number) (color : option string)
| CHeader (text : TextContent) (level : option Z)
| CTodo (text : TextContent) (checked : bool)
| CToc (entries : list TocEntry)
| CColumn (ratio : number)
| CQuote (text : TextContent) (color : option string)
| CEquation (math : option string)
| CCode (text : TextContent) (language : option string)
| CMedia (aspectRatio height width : option number)
         (fullWidth pageWidth preserveScale : option bool)
         (src : string) (caption : TextContent)
| CCallout (text : TextContent) (icon color : option string)
| CBookmark (link title desc : string)
            (favicon thumbnail color : option string)
| CCollectionView (collectionId : option string)
                  (viewIds : option (list string)).

(** The case labels of the switch; [TOther] is the fall-through. *)
Inductive tag : Type :=
| TText | TToggle | TPage | TBulletedList | TNumberedList
| THeader | TSubHeader | TSubSubHeader | TToDo | TTableOfContents
| TDivider | TColumnList | TColumn | TQuote | TEquation | TCode
| TImage | TVideo | TCallout | TBookmark | TCollectionView | TOther.

Definition labels : list (string * tag) :=
  [ ("text", TText); ("toggle", TToggle); ("page", TPage);
    ("bulleted_list", TBulletedList); ("numbered_list", TNumberedList);
    ("header", THeader); ("sub_header", TSubHeader);
    ("sub_sub_header", TSubSubHeader); ("to_do", TToDo);
    ("table_of_contents", TTableOfContents); ("divider", TDivider);
    ("column_list", TColumnList); ("column", TColumn); ("quote", TQuote);
    ("equation", TEquation); ("code", TCode); ("image", TImage);
    ("video", TVideo); ("callout", TCallout); ("bookmark", TBookmark);
    ("collection_view", TCollectionView) ].

Fixpoint assoc {A} (k : string) (l : list (string * A)) : option A :=
  match l with
  | [] => None
  | (k', a) :: l' => if String.eqb k' k then Some a else assoc k l'
  end.

Definition tagOf (ty : string) : tag :=
  match assoc ty labels with
  | Some t => t
  | None => TOther
  end.

(** [{ header: 1, sub_header: 2, sub_sub_header: 3 }[ty]] *)
Definition headerLevel (ty : string) : option Z :=
  assoc ty [("header", 1%Z); ("sub_header", 2%Z); ("sub_sub_header", 3%Z)].

(** [block.value.properties?.f] and [block.value.format?.f] *)
Definition prop {A} (f : Properties -> option A) (v : BlockValue) : option A :=
  match properties v with
  | Some p => f p
  | None => None
  end.

Definition fmt {A} (f : Format -> option A) (v : BlockValue) : option A :=
  match format v with
  | Some fm => f fm
  | None => None
  end.

(** [block.value.properties], read without [?.] by the next property
    access. *)
Definition propertiesOf (v : BlockValue) : outcome Properties :=
  match properties v with
  | Some p => Ret p
  | None => Throw TypeError
  end.

(** [r?.[0]?.[0]] *)
Definition first (r : option RichText) : option string :=
  match r with
  | Some ((s, _) :: _) => Some s
  | _ => None
  end.

(** [r?.[0][0]]: the chain stops at an absent [r] only. *)
Definition firstOfPresent (r : option RichText) : outcome (option string) :=
  match r with
  | None => Ret None
  | Some [] => Throw TypeError
  | Some ((s, _) :: _) => Ret (Some s)
  end.

(** [r[0][0]] *)
Definition firstStrict (r : option RichText) : outcome string :=
  match r with
  | Some ((s, _) :: _) => Ret s
  | _ => Throw TypeError
  end.

(** [(spans || []).reduce((a, b) => a + b.text, "")] *)
Definition joinText (spans : TextContent) : string :=
  fold_left (fun a b => (a ++ text b)%string)
            (match spans with Some l => l | None => [] end) "".

(** [xs.filter(Boolean)] where an element is an object or [null]. *)
Fixpoint filterObjects {A} (xs : list (option A)) : list A :=
  match xs with
  | [] => []
  | Some a :: xs' => a :: filterObjects xs'
  | None :: xs' => filterObjects xs'
  end.

(** [x || 0.5] *)
Definition orHalf (x : option number) : number :=
  match x with
  | Some r => if Qeq_bool r 0 then (1 # 2)%Q else r
  | None => (1 # 2)%Q
  end.

(** [ids ?? []] *)
Definition orEmpty {A} (ids : option (list A)) : list A :=
  match ids with
  | Some l => l
  | None => []
  end.

(** [a ?? b] *)
Definition nullish {A} (a b : option A) : option A :=
  match a with
  | Some _ => a
  | None => b
  end.

Section WithCollaborators.

(** The output type [T] of the rules, with JavaScript's truthiness on
    it ([Boolean(t)], used by line 187). *)
Variable T : Type.
Variable Boolean : T -> bool.

(** The functions imported from [./util], which is not among the
    sources: they are parameters, typed as the switch uses them. *)
Variable getTextContent : option RichText -> TextContent.
Variable findListIndex : ID -> BlockMap -> number.
Variable getTopLevelPageBlock : BlockValue -> BlockMap -> BlockValue.
Variable mapImageURL : option string -> BlockValue -> string.

(** Modelled from the spec: [TransformationRules<T>], whose file
    [./TransformationRules] is not among the sources. It maps an output
    kind to a builder [(identifier, content, children?) -> T].

    [rules k] is the function that [transformationRules[k]] evaluates to
    and that gives an output when called: a rule registered under [k] as
    an own property, or a function the object inherits under that name
    (for an object literal, [constructor], [toString], [toLocaleString],
    [valueOf], [hasOwnProperty], [isPrototypeOf] and
    [propertyIsEnumerable] of [Object.prototype]). It is [None] when the
    optional call of line 187 gives [undefined], or when the member is
    one of [JSObject.unusable]. *)
Definition Rule : Type := ID -> Content -> option (list T) -> T.
Definition TransformationRules : Type := string -> option Rule.

(** The callback of [map] in lines 105-117, [null] as [None]. *)
Definition tocEntry (blockMap : BlockMap) (blockId : ID) : option TocEntry :=
  match valueAt blockMap blockId with
  | Some blockValue =>
      let ty := type blockValue in
      if String.eqb ty "header" || String.eqb ty "sub_header"
         || String.eqb ty "sub_sub_header"
      then Some {| toc_id := blockId;
                   toc_level := headerLevel (type blockValue);
                   toc_text := getTextContent (prop title blockValue) |}
      else None
  | None => None
  end.

(** Lines 104-118. *)
Definition tocContent (blockMap : BlockMap) (page : BlockValue)
  : list TocEntry :=
  filterObjects (map (tocEntry blockMap) (orEmpty (content page))).

(** Lines 57-185. The result is the final [type], the [content], and
    the identifiers [children] is mapped from: [block.value.content]
    in the cases that end in
    [children = block.value.content?.map(...)], [None] in the others.
    Every property read that can throw comes before that statement. *)
Definition switch (blockMap : BlockMap) (blockId : ID) (v : BlockValue)
           (isTopLevel : bool)
  : outcome (string * Content * option (list ID)) :=
  let type0 := type v in
  match tagOf (type v) with
  | TText =>
      Ret (type0, CText (getTextContent (prop title v)), None)
  | TToggle =>
      Ret (type0, CText (getTextContent (prop title v)), content v)
  | TPage =>
      if isTopLevel then Ret (type0, CUndefined, content v)
      else
        p <- propertiesOf v ;;
        let title := first (title p) in
        let pageLinkIcon := fmt page_icon v in
        Ret ("pageLink", CPageLink title pageLinkIcon, None)
  | TBulletedList | TNumberedList =>
      let listText := getTextContent (prop title v) in
      let listStart := findListIndex blockId blockMap in
      let listColor := fmt block_color v in
      Ret (type0, CList listText listStart listColor, content v)
  | THeader | TSubHeader | TSubSubHeader =>
      let headerText := getTextContent (prop title v) in
      let headerLevel := headerLevel (type v) in
      Ret ("header", CHeader headerText headerLevel, None)
  | TToDo =>
      let todoText := getTextContent (prop title v) in
      p <- propertiesOf v ;;
      let checked :=
        match first (checked p) with
        | Some s => String.eqb s "Yes"
        | None => false
        end in
      Ret (type0, CTodo todoText checked, content v)
  | TTableOfContents =>
      let page := getTopLevelPageBlock v blockMap in
      Ret (type0, CToc (tocContent blockMap page), None)
  | TDivider =>
      Ret (type0, CUndefined, None)
  | TColumnList =>
      Ret (type0, CUndefined, content v)
  | TColumn =>
      Ret (type0, CColumn (orHalf (fmt column_ratio v)), content v)
  | TQuote =>
      let quoteText := getTextContent (prop title v) in
      Ret (type0, CQuote quoteText (fmt block_color v), None)
  | TEquation =>
      p <- propertiesOf v ;;
      math <- firstOfPresent (title p) ;;
      Ret (type0, CEquation math, None)
  | TCode =>
      let codeText := getTextContent (prop title v) in
      language <- firstOfPresent (prop language v) ;;
      Ret (type0, CCode codeText language, None)
  | TImage | TVideo =>
      Ret (type0,
           CMedia (fmt block_aspect_ratio v) (fmt block_height v)
                  (fmt block_width v) (fmt block_full_width v)
                  (fmt block_page_width v) (fmt block_preserve_scale v)
                  (mapImageURL
                     (nullish (fmt display_source v)
                              (first (prop source v))) v)
                  (getTextContent (prop caption v)),
           None)
  | TCallout =>
      let calloutText := getTextContent (prop title v) in
      let calloutIcon := fmt page_icon v in
      let calloutColor := fmt block_color v in
      Ret (type0, CCallout calloutText calloutIcon calloutColor, None)
  | TBookmark =>
      p <- propertiesOf v ;;
      bookmarkLink <- firstStrict (link p) ;;
      let bookmarkTitle := joinText (getTextContent (title p)) in
      let bookmarkDesc := joinText (getTextContent (title p)) in
      let bookmarkFavicon := fmt bookmark_icon v in
      let bookmarkThumbnail := fmt bookmark_cover v in
      let bookmarkColor := fmt block_color v in
      Ret (type0,
           CBookmark bookmarkLink bookmarkTitle bookmarkDesc
                     bookmarkFavicon bookmarkThumbnail bookmarkColor,
           None)
  | TCollectionView =>
      Ret (type0, CCollectionView (collection_id v) (view_ids v), None)
  | TOther =>
      Ret (type0, CUndefined, None)
  end.

(** [children?.filter(Boolean)] on [(T | undefined)[]]. *)
Fixpoint filterBoolean (xs : list (option T)) : list T :=
  match xs with
  | [] => []
  | Some t :: xs' =>
      if Boolean t then t :: filterBoolean xs' else filterBoolean xs'
  | None :: xs' => filterBoolean xs'
  end.

(** What [transformationRules[type]?.(blockId, content, children)]
    evaluates to when [type] is none of [JSObject.unusable]: the output
    of the function found under [type], registered or inherited, and
    [undefined] when the read finds nothing. [applyRule] below is the
    call for every [type]. *)
Definition callRule (rules : TransformationRules) (type : string)
           (blockId : ID) (content : Content) (children : option (list T))
  : option T :=
  match rules type with
  | Some rule => Some (rule blockId content children)
  | None => None
  end.

(** Line 187, [transformationRules[type]?.(blockId, content, children)].
    The rules object inherits from [Object.prototype]: with no function
    of its own under [type], the read finds [__proto__], which is no
    function, or [__defineGetter__] or [__defineSetter__], which throw on
    a content that is no function. *)
Definition applyRule (rules : TransformationRules) (type : string)
           (blockId : ID) (content : Content) (children : option (list T))
  : outcome (option T) :=
  match rules type with
  | Some rule => Ret (Some (rule blockId content children))
  | None => if JSObject.unusable type then Throw TypeError else Ret None
  end.

(** [block.value], read without [?.] by [block.value.type]. *)
Definition valueOf (block : Block) : outcome BlockValue :=
  match value block with
  | Some v => Ret v
  | None => Throw TypeError
  end.

(** [ids?.map(f)] *)
Definition mapOpt {A B} (f : A -> outcome B) (ids : option (list A))
  : outcome (option (list B)) :=
  match ids with
  | Some l => r <- mapM f l ;; Ret (Some r)
  | None => Ret None
  end.

(** Lines 47-188. [fuel] bounds the depth of the recursion: a call that
    needs more is [Diverge], and a call that returns or throws does so
    with the same outcome at every larger fuel ([transform_more_fuel]). *)
Fixpoint transformBlockMap (fuel : nat) (blockMap : BlockMap)
         (blockId : ID) (transformationRules : TransformationRules)
         (isTopLevel : bool) : outcome (option T) :=
  match fuel with
  | O => Diverge
  | S fuel' =>
      match get blockMap blockId with
      | None =>
          (* lines 53-57: a member of [Object.prototype] passes
             [if (!block) return;] and has no [value] *)
          if JSObject.inherited blockId then Throw TypeError else Ret None
      | Some block =>
          v <- valueOf block ;;
          ' (type, content, ids) <- switch blockMap blockId v isTopLevel ;;
          children <-
            mapOpt (fun id =>
                      transformBlockMap fuel' blockMap id
                                        transformationRules false) ids ;;
          applyRule transformationRules type blockId content
                    (option_map filterBoolean children)
      end
  end.

(** What [children?.map(...)] evaluates to when every call returns:
    the results [rs], one per identifier and in their order. *)
Inductive childrenReturn (fuel : nat) (blockMap : BlockMap)
          (transformationRules : TransformationRules)
  : option (list ID) -> option (list (option T)) -> Prop :=
| noChildren :
    childrenReturn fuel blockMap transformationRules None None
| allReturn : forall ids rs,
    Forall2 (fun id r =>
               transformBlockMap fuel blockMap id transformationRules false
               = Ret r) ids rs ->
    childrenReturn fuel blockMap transformationRules (Some ids) (Some rs).

End WithCollaborators.

End Transform.

(** ** Relations on the block map *)

Module Graph.

(** The child identifiers a block lists, [[]] for a block without a
    value or without a child list. *)
Definition childIds (blockMap : BlockMap) (id : ID) : list ID :=
  match valueAt blockMap id with
  | Some v => match content v with Some ids => ids | None => [] end
  | None => []
  end.

(** [y] is named in the child list of [x]. *)
Definition childOf (blockMap : BlockMap) (x y : ID) : Prop :=
  In y (childIds blockMap x).

Definition reachable (blockMap : BlockMap) (root id : ID) : Prop :=
  clos_refl_trans ID (childOf blockMap) root id.

Definition acyclic (blockMap : BlockMap) : Prop :=
  forall x, ~ clos_trans ID (childOf blockMap) x x.

(** A chain of [n] child references that starts at [x]. *)
Inductive chain (blockMap : BlockMap) : nat -> ID -> Prop :=
| chain_O : forall x, chain blockMap 0 x
| chain_S : forall n x y,
    childOf blockMap x y -> chain blockMap n y -> chain blockMap (S n) x.

(** The types whose case in the switch maps [transformBlockMap] over
    the child list; [page] does only at the top level. *)
Definition descends (isTopLevel : bool) (ty : string) : bool :=
  match Transform.tagOf ty with
  | Transform.TToggle | Transform.TBulletedList | Transform.TNumberedList
  | Transform.TToDo | Transform.TColumnList | Transform.TColumn => true
  | Transform.TPage => isTopLevel
  | _ => false
  end.

(** The call on [x] with flag [isTopLevel] maps over a child list that
    names [y]. *)
Definition callsOn (blockMap : BlockMap) (isTopLevel : bool) (x y : ID)
  : Prop :=
  exists v, valueAt blockMap x = Some v
            /\ descends isTopLevel (NotionTypes.type v) = true
            /\ childOf blockMap x y.

(** From [x], calls below the root (their flag is [false]) lead to a
    block [c] that lies on a cycle of such calls. *)
Definition towardsCycle (blockMap : BlockMap) (x : ID) : Prop :=
  exists c, clos_refl_trans ID (callsOn blockMap false) x c
            /\ clos_trans ID (callsOn blockMap false) c c.

(** The call on [root] maps over a child that leads to such a cycle. *)
Definition entersCycle (blockMap : BlockMap) (isTopLevel : bool) (root : ID)
  : Prop :=
  exists y, callsOn blockMap isTopLevel root y /\ towardsCycle blockMap y.

End Graph.

(** ** The grouping of one child list, as described

    Children are walked in order. A child whose type is resolved and
    differs from the tracked type starts a new group; any other child
    joins the current group. *)

Module Runs.

Definition startsGroup (blockMap : BlockMap) (tracker : option string)
           (id : ID) : bool :=
  truthy_str (typeAt blockMap id) && strict_neq (typeAt blockMap id) tracker.

Fixpoint runsFrom (blockMap : BlockMap) (tracker : option string)
         (cur : list ID) (ids : list ID) : list (list ID) :=
  match ids with
  | [] => [cur]
  | id :: rest =>
      if startsGroup blockMap tracker id
      then cur :: runsFrom blockMap (typeAt blockMap id) [id] rest
      else runsFrom blockMap tracker (cur ++ [id]) rest
  end.

End Runs.

(** ** The table of contents, as described

    One entry per header-family child of the page, in order. *)

Module Toc.

Section WithText.

Variable getTextContent : option RichText -> Transform.TextContent.

Definition entry (id : ID) (level : Z) (v : BlockValue) : Transform.TocEntry :=
  {| Transform.toc_id := id;
     Transform.toc_level := Some level;
     Transform.toc_text := getTextContent (Transform.prop title v) |}.

Definition entriesOf (blockMap : BlockMap) (id : ID)
  : list Transform.TocEntry :=
  match valueAt blockMap id with
  | Some v =>
      if String.eqb (NotionTypes.type v) "header" then [entry id 1 v]
      else if String.eqb (NotionTypes.type v) "sub_header" then [entry id 2 v]
      else if String.eqb (NotionTypes.type v) "sub_sub_header"
           then [entry id 3 v]
      else []
  | None => []
  end.

Definition headerEntries (blockMap : BlockMap) (ids : list ID)
  : list Transform.TocEntry :=
  flat_map (entriesOf blockMap) ids.

End WithText.

End Toc.

(** ** Block maps and rules used as concrete inputs *)

Module Fixtures.

Import Transform.

Definition noProperties : option Properties := None.

Definition titled (s : string) : option Properties :=
  Some {| title := Some [(s, [])]; caption := None; link := None;
          checked := None; language := None; source := None |}.

Definition block (ty : string) (props : option Properties)
           (children : option (list ID)) : Block :=
  {| value := Some {| NotionTypes.type := ty; properties := props;
                      format := None; content := children;
                      collection_id := None; view_ids := None |} |}.

(** Stand-ins for the functions of [./util]. *)
Definition textOf (r : option RichText) : TextContent :=
  option_map (map (fun d : Decoration => {| text := fst d; marks := snd d |})) r.
Definition listIndex (_ : ID) (_ : BlockMap) : number := (1 # 1)%Q.
Definition topPage (v : BlockValue) (blockMap : BlockMap) : BlockValue :=
  match valueAt blockMap "root" with
  | Some page => page
  | None => v
  end.
Definition imageURL (s : option string) (_ : BlockValue) : string :=
  match s with Some u => u | None => "" end.

(** Output values: a number, or a node that records the call of its
    rule. In JavaScript [0] is falsy and an object is truthy. *)
#[warnings="-register-all"]
Inductive out : Type :=
| Num (n : Z)
| Node (kind : string) (id : ID) (c : Content) (children : option (list out)).

Definition outBoolean (o : out) : bool :=
  match o with
  | Num n => negb (n =? 0)%Z
  | Node _ _ _ _ => true
  end.

(** A rule for every kind, recording its arguments. *)
Definition recording : TransformationRules out :=
  fun kind => Some (Node kind).

(** As [recording], but the rule of [text] returns the number [0]. *)
Definition zeroText : TransformationRules out :=
  fun kind => if String.eqb kind "text" then Some (fun _ _ _ => Num 0)
              else Some (Node kind).

(** The identifiers of the nodes of an output value. *)
Fixpoint nodeIds (o : out) : list ID :=
  match o with
  | Num _ => []
  | Node _ id _ children =>
      id :: match children with
            | Some l => flat_map nodeIds l
            | None => []
            end
  end.

Definition run := transformBlockMap outBoolean textOf listIndex topPage imageURL.

(** A parent with children of types text, text, divider, text. *)
Definition fourChildren : BlockMap :=
  [ ("p", block "page" (titled "P") (Some ["a"; "b"; "c"; "d"]));
    ("a", block "text" (titled "A") None);
    ("b", block "text" (titled "B") None);
    ("c", block "divider" noProperties None);
    ("d", block "text" (titled "D") None) ].

(** A parent whose second child is absent from the map. *)
Definition missingMiddle : BlockMap :=
  [ ("p", block "page" (titled "P") (Some ["a"; "m"; "b"]));
    ("a", block "text" (titled "A") None);
    ("b", block "text" (titled "B") None) ].

(** Two parents whose only children have the same type. *)
Definition twoParents : BlockMap :=
  [ ("p", block "toggle" (titled "P") (Some ["a"]));
    ("q", block "toggle" (titled "Q") (Some ["b"]));
    ("a", block "text" (titled "A") None);
    ("b", block "text" (titled "B") None) ].

(** A root page with a text child and a to-do child. *)
Definition document : BlockMap :=
  [ ("root", block "page" (titled "Doc") (Some ["a"; "b"]));
    ("a", block "text" (titled "Hello") None);
    ("b", block "to_do" (titled "Buy milk") None) ].

(** A root page with one text child. *)
Definition onlyText : BlockMap :=
  [ ("root", block "page" (titled "Doc") (Some ["a"]));
    ("a", block "text" (titled "Hello") None) ].

(** A root page that links a page without a properties bag. *)
Definition untitledLink : BlockMap :=
  [ ("root", block "page" (titled "Doc") (Some ["sub"]));
    ("sub", block "page" noProperties None) ].

(** Two toggles that list each other. *)
Definition loop : BlockMap :=
  [ ("a", block "toggle" (titled "A") (Some ["b"]));
    ("b", block "toggle" (titled "B") (Some ["a"])) ].

(** A root page with headers, other blocks and an absent child. *)
Definition withHeaders : BlockMap :=
  [ ("root", block "page" (titled "Doc")
                   (Some ["h1"; "t"; "toc"; "gone"; "h3"; "h2"]));
    ("h1", block "header" (titled "One") None);
    ("t", block "text" (titled "Body") None);
    ("toc", block "table_of_contents" noProperties None);
    ("h3", block "sub_sub_header" (titled "Three") None);
    ("h2", block "sub_header" (titled "Two") None) ].

(** A bookmark with a link and a two-span title. *)
Definition bookmarkValue : BlockValue :=
  {| NotionTypes.type := "bookmark";
     properties :=
       Some {| title := Some [("Rocq", []); (" prover", [])];
               caption := None;
               link := Some [("https://rocq-prover.org", [])];
               checked := None; language := None; source := None |};
     format := None; content := None;
     collection_id := None; view_ids := None |}.

Definition bookmarked : BlockMap :=
  [ ("bm", {| value := Some bookmarkValue |}) ].

(** A rank that decreases along the child lists of [document]. *)
Definition rank (id : ID) : nat :=
  if String.eqb id "root" then 1 else 0.

End Fixtures.

(** ** What the switch decides, read as tables *)

Module Cases.

(** The kind the rule is looked up under: the type of the block, but
    [pageLink] for a page below the top level and [header] for the three
    header types. *)
Definition kindOf (isTopLevel : bool) (ty : string) : string :=
  match Transform.tagOf ty with
  | Transform.TPage => if isTopLevel then ty else "pageLink"
  | Transform.THeader | Transform.TSubHeader | Transform.TSubSubHeader =>
      "header"
  | _ => ty
  end.

(** A rich-text field that is present and empty: [r?.[0][0]] reads [[0]]
    of [undefined] on it. *)
Definition presentEmpty (r : option RichText) : bool :=
  match r with
  | Some [] => true
  | _ => false
  end.

(** The blocks on which a property read of the switch is a read on
    [undefined]: lines 75, 97, 137, 141 and 164. *)
Definition malformed (isTopLevel : bool) (v : BlockValue) : bool :=
  match Transform.tagOf (NotionTypes.type v) with
  | Transform.TPage =>
      negb isTopLevel
      && match properties v with Some _ => false | None => true end
  | Transform.TToDo =>
      match properties v with Some _ => false | None => true end
  | Transform.TEquation =>
      match properties v with
      | Some p => presentEmpty (title p)
      | None => true
      end
  | Transform.TCode => presentEmpty (Transform.prop language v)
  | Transform.TBookmark =>
      match properties v with
      | Some p => match link p with Some (_ :: _) => false | _ => true end
      | None => true
      end
  | _ => false
  end.

(** The truthy entries of the results of the child calls, each of them
    and in their order: what [filter(Boolean)] keeps. *)
Definition truthyOnes {T : Type} (Boolean : T -> bool)
           (rs : list (option T)) : list T :=
  flat_map (fun r => match r with
                     | Some t => if Boolean t then [t] else []
                     | None => []
                     end) rs.

(** The identifier is an own key of the map. *)
Definition present (blockMap : BlockMap) (id : ID) : bool :=
  match get blockMap id with
  | Some _ => true
  | None => false
  end.

(** The three header types. *)
Definition headerFamily (ty : string) : bool :=
  String.eqb ty "header" || String.eqb ty "sub_header"
  || String.eqb ty "sub_sub_header".

End Cases.

(** ** Chains of mapping calls *)

Module Calls.

(** A chain of [n] calls, each mapping over a child list that names the
    next block; the first has the flag [isTopLevel], the others [false]. *)
Inductive callChain (blockMap : BlockMap) : nat -> bool -> ID -> Prop :=
| callChain_O : forall isTopLevel x, callChain blockMap 0 isTopLevel x
| callChain_S : forall n isTopLevel x y,
    Graph.callsOn blockMap isTopLevel x y ->
    callChain blockMap n false y ->
    callChain blockMap (S n) isTopLevel x.

(** No block below the root leads back to itself through mapping calls.
    A page below the root maps over nothing, so a cycle of child
    references through a page is no cycle of calls. *)
Definition noCallCycle (blockMap : BlockMap) : Prop :=
  forall x, ~ clos_trans ID (Graph.callsOn blockMap false) x x.

End Calls.

(** ** Groups of one type *)

Module Groups.

(** The children of resolved type in the group all have the type [t]. *)
Definition typedAs (blockMap : BlockMap) (t : string) (grp : list ID) : Prop :=
  forall id, In id grp ->
             truthy_str (typeAt blockMap id) = true ->
             typeAt blockMap id = Some t.

(** The children of resolved type in the group have one type. *)
Definition sameType (blockMap : BlockMap) (grp : list ID) : Prop :=
  exists t, typedAs blockMap t grp.

(** The first child, in [Object.keys] order of the parents, if any. *)
Definition firstChild (blockMap : BlockMap) : option ID :=
  hd_error (flat_map (Graph.childIds blockMap) (keys blockMap)).

End Groups.

(** ** The groups, as the walk describes them *)

Module Grouping.

(** The walk over the keys [ks] as one list: the children of each key,
    each child list closed by the mark [None], where the remembered type
    is forgotten. *)
Definition walkOf (blockMap : BlockMap) (ks : list ID) : list (option ID) :=
  flat_map (fun k => map Some (Graph.childIds blockMap k) ++ [None]) ks.

(** The walk over all keys, in [Object.keys] order. *)
Definition walkOrder (blockMap : BlockMap) : list (option ID) :=
  walkOf blockMap (keys blockMap).

(** The groups that the items left to walk give, [cur] being the group
    under construction and [tracker] the remembered type. A child whose
    type is truthy and differs from the remembered one closes [cur],
    starts the next group and has its type remembered; any other child
    is appended to [cur]. *)
Fixpoint groupsFrom (blockMap : BlockMap) (tracker : option string)
         (cur : list ID) (items : list (option ID)) : list (list ID) :=
  match items with
  | [] => [cur]
  | None :: rest => groupsFrom blockMap None cur rest
  | Some id :: rest =>
      if Runs.startsGroup blockMap tracker id
      then cur :: groupsFrom blockMap (typeAt blockMap id) [id] rest
      else groupsFrom blockMap tracker (cur ++ [id]) rest
  end.

(** The groups of a walk: none before the first child, which starts the
    first group. *)
Fixpoint groupsOf (blockMap : BlockMap) (items : list (option ID))
  : list (list ID) :=
  match items with
  | [] => []
  | None :: rest => groupsOf blockMap rest
  | Some id :: rest => groupsFrom blockMap (typeAt blockMap id) [id] rest
  end.

Definition grouping (blockMap : BlockMap) : list (list ID) :=
  groupsOf blockMap (walkOrder blockMap).

End Grouping.

(** ** More block maps used as concrete inputs *)

Module MoreFixtures.

Import Transform Fixtures.

(** A root page whose toggle child lists the root page again. *)
Definition throughPage : BlockMap :=
  [ ("root", block "page" (titled "Doc") (Some ["t"]));
    ("t", block "toggle" (titled "T") (Some ["root"])) ].

Definition callRank (id : ID) : nat :=
  if String.eqb id "t" then 1 else 0.

(** A block of a type the switch has no case for. *)
Definition embedded : BlockMap :=
  [ ("e", block "embed" (titled "E") (Some ["x"])) ].

(** A column without a format bag. *)
Definition columnValue : BlockValue :=
  {| NotionTypes.type := "column"; properties := None; format := None;
     content := Some ["a"]; collection_id := None; view_ids := None |}.

(** A child list that begins with an identifier absent from the map. *)
Definition missingFirst : BlockMap :=
  [ ("p", block "page" (titled "P") (Some ["m"; "a"]));
    ("a", block "text" (titled "A") None) ].

(** A root page with a header, a text, an absent identifier and a quote
    as children, and the nodes of the header and of the quote. *)
Definition mixedChildren : BlockMap :=
  [ ("root", block "page" (titled "Doc") (Some ["h"; "a"; "m"; "q"]));
    ("h", block "header" (titled "H") None);
    ("a", block "text" (titled "A") None);
    ("q", block "quote" (titled "Q") None) ].

Definition headerNode : out :=
  Node "header" "h"
       (CHeader (Some [{| text := "H"; marks := [] |}]) (Some 1%Z)) None.

Definition quoteNode : out :=
  Node "quote" "q" (CQuote (Some [{| text := "Q"; marks := [] |}]) None) None.

(** Outputs kept as JavaScript values, with their truthiness. *)
Inductive jsValue : Type :=
| JString (s : string)
| JBoolean (b : bool)
| JObject (what : string).

Definition jsBoolean (x : jsValue) : bool :=
  match x with
  | JString s => negb (String.eqb s "")
  | JBoolean b => b
  | JObject _ => true
  end.

(** The object literal [{}] taken as rules: it registers nothing and
    inherits the functions of [Object.prototype]. Called with
    [(blockId, content, children)], [constructor] wraps the identifier in
    a String object, and the three tests answer [false] for an
    identifier. *)
Definition emptyObject : TransformationRules jsValue :=
  fun k =>
    if String.eqb k "toString" || String.eqb k "toLocaleString"
    then Some (fun _ _ _ => JString "[object Object]")
    else if String.eqb k "valueOf"
    then Some (fun _ _ _ => JObject "the rules object")
    else if String.eqb k "constructor"
    then Some (fun _ _ _ => JObject "a String object")
    else if String.eqb k "hasOwnProperty" || String.eqb k "isPrototypeOf"
            || String.eqb k "propertyIsEnumerable"
    then Some (fun _ _ _ => JBoolean false)
    else None.

(** Blocks whose types are [toString], [__proto__] and [embed]. *)
Definition oddTypes : BlockMap :=
  [ ("s", block "toString" noProperties None);
    ("u", block "__proto__" noProperties None);
    ("e", block "embed" noProperties (Some ["x"])) ].

(** A parent whose only child is followed, under the next parent, by an
    absent identifier and a child of the same type. *)
Definition acrossParents : BlockMap :=
  [ ("p", block "toggle" (titled "P") (Some ["a"]));
    ("q", block "toggle" (titled "Q") (Some ["m"; "b"]));
    ("a", block "text" (titled "A") None);
    ("b", block "text" (titled "B") None) ].

(** A to-do without a properties bag. *)
Definition bareTodo : BlockValue :=
  {| NotionTypes.type := "to_do"; properties := None; format := None;
     content := None; collection_id := None; view_ids := None |}.

Definition withBareTodo : BlockMap :=
  [ ("root", block "page" (titled "Doc") (Some ["a"; "k"; "b"]));
    ("a", block "text" (titled "A") None);
    ("k", {| value := Some bareTodo |});
    ("b", block "text" (titled "B") None);
    ("v", {| value := None |}) ].

End MoreFixtures.

(** ** Case analysis on the property reads of the switch *)

(** Splits a goal about [switch] along the reads that may throw. *)
Ltac split_switch :=
  repeat (cbn [bind];
          match goal with
          | |- context [bind (match ?x with _ => _ end) _] => destruct x
          end);
  cbn [bind].


(** * Properties *)

Unset Implicit Arguments.

(** ** Arrays without holes *)

Section ArrayFacts.

Variable A : Type.
Implicit Types (l : list A) (x c : A).

Lemma write_nat_end l x :
  JSArray.write_nat (JSArray.dense l) (length l) x = JSArray.dense (l ++ [x]).
Proof.
  unfold JSArray.dense.
  induction l as [|a l IH]; simpl; [reflexivity | now f_equal].
Qed.

Lemma write_nat_last l c x :
  JSArray.write_nat (JSArray.dense (l ++ [c])) (length l) x
  = JSArray.dense (l ++ [x]).
Proof.
  unfold JSArray.dense.
  induction l as [|a l IH]; simpl; [reflexivity | now f_equal].
Qed.

Lemma write_end l x :
  JSArray.write (JSArray.dense l) (Z.of_nat (length l)) x
  = JSArray.dense (l ++ [x]).
Proof.
  unfold JSArray.write.
  destruct (Z.ltb_spec (Z.of_nat (length l)) 0); [lia|].
  rewrite Nat2Z.id. apply write_nat_end.
Qed.

Lemma write_last l c x :
  JSArray.write (JSArray.dense (l ++ [c])) (Z.of_nat (length l)) x
  = JSArray.dense (l ++ [x]).
Proof.
  unfold JSArray.write.
  destruct (Z.ltb_spec (Z.of_nat (length l)) 0); [lia|].
  rewrite Nat2Z.id. apply write_nat_last.
Qed.

Lemma read_last l c :
  JSArray.read (JSArray.dense (l ++ [c])) (Z.of_nat (length l)) = Some c.
Proof.
  unfold JSArray.read.
  destruct (Z.ltb_spec (Z.of_nat (length l)) 0); [lia|].
  rewrite Nat2Z.id. unfold JSArray.dense.
  rewrite map_app, nth_error_app2; rewrite length_map; [|lia].
  now rewrite Nat.sub_diag.
Qed.

Lemma read_before (a : JSArray.t A) : JSArray.read a (-1) = None.
Proof. reflexivity. Qed.

Lemma dense_length l : length (JSArray.dense l) = length l.
Proof. apply length_map. Qed.

End ArrayFacts.

(** ** [groupBlocks]: the array stays dense and follows the runs *)

Section GroupBlocksFacts.

Import GroupBlocks Runs.
Variable blockMap : BlockMap.

Lemma visitChild_opens gs st id :
  tracks gs st ->
  startsGroup blockMap (type st) id = true ->
  visitChild blockMap st id
  = Ret {| groups := JSArray.dense (gs ++ [[id]]);
           type := typeAt blockMap id;
           index := (index st + 1)%Z |}.
Proof.
  intros [Hg Hi] Hs. unfold visitChild, openGroup.
  unfold startsGroup in Hs. rewrite Hs.
  unfold push; simpl. rewrite Hg, Hi.
  replace (Z.of_nat (length gs) - 1 + 1)%Z with (Z.of_nat (length gs)) by lia.
  rewrite write_end, read_last, write_last. reflexivity.
Qed.

Lemma visitChild_joins gs cur st id :
  tracks (gs ++ [cur]) st ->
  startsGroup blockMap (type st) id = false ->
  visitChild blockMap st id
  = Ret {| groups := JSArray.dense (gs ++ [cur ++ [id]]);
           type := type st;
           index := index st |}.
Proof.
  intros [Hg Hi] Hs. unfold visitChild, openGroup.
  unfold startsGroup in Hs. rewrite Hs.
  unfold push. rewrite Hg, Hi, length_app; simpl.
  replace (Z.of_nat (length gs + 1) - 1)%Z with (Z.of_nat (length gs)) by lia.
  rewrite read_last, write_last. reflexivity.
Qed.

Lemma visitChild_no_group st id :
  tracks [] st ->
  startsGroup blockMap (type st) id = false ->
  visitChild blockMap st id = Throw TypeError.
Proof.
  intros [Hg Hi] Hs. unfold visitChild, openGroup.
  unfold startsGroup in Hs. rewrite Hs.
  unfold push. rewrite Hg, Hi. reflexivity.
Qed.

(** A child either opens a group or leaves their number unchanged. *)
Lemma visitChild_tracks gs st id st' :
  tracks gs st ->
  visitChild blockMap st id = Ret st' ->
  exists gs', tracks gs' st'
              /\ (if startsGroup blockMap (type st) id
                  then gs' = gs ++ [[id]] /\ type st' = typeAt blockMap id
                  else length gs' = length gs /\ type st' = type st).
Proof.
  intros Ht Hv.
  destruct (startsGroup blockMap (type st) id) eqn:Hs.
  - rewrite (visitChild_opens _ _ _ Ht Hs) in Hv. injection Hv as <-.
    exists (gs ++ [[id]]). repeat split; simpl.
    destruct Ht as [_ ->]. rewrite length_app; simpl. lia.
  - destruct gs as [|g0 gs0] using rev_ind.
    + rewrite (visitChild_no_group _ _ Ht Hs) in Hv. discriminate.
    + rewrite (visitChild_joins _ _ _ _ Ht Hs) in Hv. injection Hv as <-.
      exists (gs0 ++ [g0 ++ [id]]). repeat split; simpl.
      * destruct Ht as [_ ->]. rewrite !length_app; reflexivity.
      * rewrite !length_app; reflexivity.
Qed.

Lemma forEach_app (S A : Type) (f : S -> A -> outcome S) xs ys s :
  forEach f (xs ++ ys) s = (s' <- forEach f xs s ;; forEach f ys s').
Proof.
  revert s. induction xs as [|x xs IH]; intros s; simpl; [reflexivity|].
  destruct (f s x); simpl; auto.
Qed.

(** Walking a child list from inside a group yields the described runs. *)
Lemma walk_runsFrom ids : forall gs cur st,
  tracks (gs ++ [cur]) st ->
  exists st',
    forEach (visitChild blockMap) ids st = Ret st'
    /\ tracks (gs ++ runsFrom blockMap (type st) cur ids) st'.
Proof.
  induction ids as [|id rest IH]; intros gs cur st Ht; simpl.
  - eauto.
  - destruct (startsGroup blockMap (type st) id) eqn:Hs.
    + rewrite (visitChild_opens _ _ _ Ht Hs); simpl.
      edestruct (IH (gs ++ [cur]) [id]) as [st' [Hw Ht']];
        [|exists st'; split; [exact Hw|]].
      * split; simpl; [reflexivity|].
        destruct Ht as [_ ->]. rewrite !length_app; simpl. lia.
      * simpl in Ht'. now rewrite <- app_assoc in Ht'.
    + rewrite (visitChild_joins _ _ _ _ Ht Hs); simpl.
      edestruct (IH gs (cur ++ [id])) as [st' [Hw Ht']];
        [|exists st'; split; [exact Hw|exact Ht']].
      split; simpl; [reflexivity|].
      destruct Ht as [_ ->]. rewrite !length_app; simpl. lia.
Qed.

Lemma tracks_init : tracks [] init.
Proof. split; reflexivity. Qed.

(** [visitParent] keeps the array dense and resets the tracker. *)
Lemma walk_tracks ids : forall gs st st',
  tracks gs st ->
  forEach (visitChild blockMap) ids st = Ret st' ->
  exists gs', tracks gs' st'.
Proof.
  induction ids as [|id rest IH]; intros gs st st' Ht Hw; simpl in Hw.
  - injection Hw as <-. eauto.
  - destruct (visitChild blockMap st id) as [st1| |] eqn:Hv; try discriminate.
    destruct (visitChild_tracks _ _ _ _ Ht Hv) as [gs1 [Ht1 _]]. simpl in Hw. eauto.
Qed.

Lemma visitParent_tracks gs st id st' :
  tracks gs st ->
  visitParent blockMap st id = Ret st' ->
  (exists gs', tracks gs' st') /\ type st' = None.
Proof.
  intros Ht Hv. unfold visitParent in Hv.
  destruct (valueAt blockMap id) as [v|]; [destruct (content v) as [ids|]|];
    simpl in Hv.
  - destruct (forEach (visitChild blockMap) ids st) as [st1| |] eqn:Hw;
      try discriminate.
    simpl in Hv. injection Hv as <-.
    destruct (walk_tracks _ _ _ _ Ht Hw) as [gs1 [Hg Hi]].
    split; [exists gs1; split; assumption|reflexivity].
  - injection Hv as <-. split; [exists gs; exact Ht|reflexivity].
  - injection Hv as <-. split; [exists gs; exact Ht|reflexivity].
Qed.

Lemma parents_tracks ks : forall gs st st',
  tracks gs st -> type st = None ->
  forEach (visitParent blockMap) ks st = Ret st' ->
  (exists gs', tracks gs' st') /\ type st' = None.
Proof.
  induction ks as [|k ks IH]; intros gs st st' Ht Hty Hw; simpl in Hw.
  - injection Hw as <-. eauto.
  - destruct (visitParent blockMap st k) as [st1| |] eqn:Hv; try discriminate.
    destruct (visitParent_tracks _ _ _ _ Ht Hv) as [[gs1 Ht1] Hty1]. simpl in Hw. eauto.
Qed.

Lemma runsFrom_concat ids : forall tr cur,
  List.concat (runsFrom blockMap tr cur ids) = cur ++ ids.
Proof.
  induction ids as [|id rest IH]; intros tr cur; simpl.
  - now rewrite app_nil_r.
  - destruct (startsGroup blockMap tr id); simpl.
    + now rewrite IH.
    + now rewrite IH, <- app_assoc.
Qed.

End GroupBlocksFacts.

Import GroupBlocks Runs.

(** C7, as stated, fails: a child absent from the map is not skipped.
    With children [a, m, b], [a] and [b] of type text and [m] absent,
    the only group is [[a; m; b]], not [[a; b]]. *)
Lemma groupBlocks_keeps_unresolved_child :
  typeAt Fixtures.missingMiddle "m" = None
  /\ groupBlocks Fixtures.missingMiddle = Ret (JSArray.dense [["a"; "m"; "b"]])
  /\ groupBlocks Fixtures.missingMiddle <> Ret (JSArray.dense [["a"; "b"]]).
Proof. split; [reflexivity | split; [reflexivity | discriminate]]. Qed.

(** ** Mapping a callback that may throw or not return *)

Section OutcomeFacts.

Variables A B : Type.
Implicit Types (f g : A -> outcome B) (l : list A).

Lemma mapM_Forall2 f l rs :
  Forall2 (fun a r => f a = Ret r) l rs -> mapM f l = Ret rs.
Proof.
  induction 1 as [|a r l rs Ha _ IH]; simpl; [reflexivity|].
  now rewrite Ha, IH.
Qed.

Lemma mapM_In f l rs r :
  mapM f l = Ret rs -> In r rs -> exists a, In a l /\ f a = Ret r.
Proof.
  revert rs. induction l as [|a l IH]; intros rs Hm Hr; simpl in Hm.
  - injection Hm as <-. destruct Hr.
  - destruct (f a) as [b| |] eqn:Ha; try discriminate. simpl in Hm.
    destruct (mapM f l) as [bs| |]; try discriminate. simpl in Hm.
    injection Hm as <-. destruct Hr as [<-|Hr].
    + exists a. split; [now left|exact Ha].
    + destruct (IH bs eq_refl Hr) as [a' [Hin Ha']].
      exists a'. split; [now right|exact Ha'].
Qed.

Lemma mapM_never_returns f l a :
  In a l -> (forall r, f a <> Ret r) -> forall rs, mapM f l <> Ret rs.
Proof.
  intros Hin Hf rs Hm. induction l as [|x l IH] in rs, Hin, Hm |- *.
  - destruct Hin.
  - simpl in Hm. destruct (f x) as [b| |] eqn:Hx; try discriminate.
    simpl in Hm. destruct (mapM f l) as [bs| |] eqn:Hl; try discriminate.
    destruct Hin as [->|Hin]; [exact (Hf b Hx)|exact (IH Hin bs eq_refl)].
Qed.

Lemma mapM_comes_back f l :
  (forall a, In a l -> f a <> Diverge) -> mapM f l <> Diverge.
Proof.
  induction l as [|x l IH]; intros Hf; simpl; [discriminate|].
  destruct (f x) as [b| |] eqn:Hx; simpl.
  - destruct (mapM f l) eqn:Hl; simpl; try discriminate.
    exfalso. apply IH; [|reflexivity]. intros a Ha. apply Hf. now right.
  - discriminate.
  - exfalso. apply (Hf x); [now left|exact Hx].
Qed.

Lemma mapM_more_fuel f g l :
  (forall a, In a l -> f a <> Diverge -> g a = f a) ->
  mapM f l <> Diverge -> mapM g l = mapM f l.
Proof.
  induction l as [|x l IH]; intros Hfg Hd; simpl in *; [reflexivity|].
  destruct (f x) as [b| |] eqn:Hx; simpl in *.
  - rewrite (Hfg x (or_introl eq_refl)), Hx by (rewrite Hx; discriminate).
    simpl. rewrite IH; [reflexivity| |].
    + intros a Ha. apply Hfg. now right.
    + intros Hl. rewrite Hl in Hd. now apply Hd.
  - rewrite (Hfg x (or_introl eq_refl)), Hx by (rewrite Hx; discriminate).
    reflexivity.
  - now destruct Hd.
Qed.

End OutcomeFacts.

Lemma append_assoc (a b c : string) : ((a ++ b) ++ c = a ++ (b ++ c))%string.
Proof. induction a as [|x a IH]; simpl; [reflexivity|now rewrite IH]. Qed.

Lemma append_empty (a : string) : (a ++ "" = a)%string.
Proof. induction a as [|x a IH]; simpl; [reflexivity|now rewrite IH]. Qed.

Lemma concat_cons (x : string) (xs : list string) :
  String.concat "" (x :: xs) = (x ++ String.concat "" xs)%string.
Proof.
  destruct xs as [|y xs]; simpl; [now rewrite append_empty|reflexivity].
Qed.

Import Transform.

Lemma joinText_concat (spans : TextContent) :
  joinText spans = String.concat "" (map text (orEmpty spans)).
Proof.
  unfold joinText. change (match spans with Some l => l | None => [] end)
    with (orEmpty spans).
  enough (H : forall l acc,
             fold_left (fun a b => (a ++ text b)%string) l acc
             = (acc ++ String.concat "" (map text l))%string)
    by (rewrite H; reflexivity).
  induction l as [|s l IH]; intros acc.
  - simpl. now rewrite append_empty.
  - cbn [fold_left map]. rewrite IH, concat_cons. apply append_assoc.
Qed.

(** ** [transformBlockMap] *)

Section TransformFacts.

Variable T : Type.
Variable Boolean : T -> bool.
Variable getTextContent : option RichText -> TextContent.
Variable findListIndex : ID -> BlockMap -> number.
Variable getTopLevelPageBlock : BlockValue -> BlockMap -> BlockValue.
Variable mapImageURL : option string -> BlockValue -> string.

Local Abbreviation transform :=
  (transformBlockMap Boolean getTextContent findListIndex
                     getTopLevelPageBlock mapImageURL).
Local Abbreviation dispatch :=
  (switch getTextContent findListIndex getTopLevelPageBlock mapImageURL).

Implicit Types (blockMap : BlockMap) (blockId : ID)
         (rules : TransformationRules T) (v : BlockValue).

(** One unfolding of the recursion on a block that has a value. *)
Lemma transform_step fuel blockMap blockId rules top block v :
  get blockMap blockId = Some block -> value block = Some v ->
  transform (S fuel) blockMap blockId rules top
  = (' (type, content, ids) <- dispatch blockMap blockId v top ;;
     children <- mapOpt (fun id => transform fuel blockMap id rules false) ids ;;
     applyRule rules type blockId content
               (option_map (filterBoolean Boolean) children)).
Proof.
  intros Hg Hv. simpl. rewrite Hg. unfold valueOf. rewrite Hv. reflexivity.
Qed.

(** For a kind that is no unusable member of [Object.prototype] the call
    of line 187 does not throw. *)
Lemma applyRule_comes_back rules kind blockId c children :
  applyRule rules kind blockId c children <> Diverge.
Proof.
  unfold applyRule. destruct (rules kind); [discriminate|].
  destruct (JSObject.unusable kind); discriminate.
Qed.

Lemma applyRule_usable rules kind blockId c children :
  JSObject.unusable kind = false ->
  applyRule rules kind blockId c children
  = Ret (callRule rules kind blockId c children).
Proof.
  intros Hu. unfold applyRule, callRule.
  destruct (rules kind); [reflexivity|]. now rewrite Hu.
Qed.

Lemma transform_leaf fuel blockMap blockId rules top block v kind c :
  get blockMap blockId = Some block -> value block = Some v ->
  dispatch blockMap blockId v top = Ret (kind, c, None) ->
  JSObject.unusable kind = false ->
  transform (S fuel) blockMap blockId rules top
  = Ret (callRule rules kind blockId c None).
Proof.
  intros Hg Hv Hd Hu. rewrite (transform_step _ _ _ _ _ _ _ Hg Hv), Hd.
  cbn [bind mapOpt option_map]. now apply applyRule_usable.
Qed.

Lemma inherited_In (k : string) :
  JSObject.inherited k = true <-> In k JSObject.prototypeNames.
Proof.
  unfold JSObject.inherited. rewrite existsb_exists. split.
  - intros [x [Hin He]]. apply String.eqb_eq in He. now subst.
  - intros H. exists k. split; [exact H|apply String.eqb_refl].
Qed.

(** C8 (the code at an absent identifier). Take an identifier that is
    no own key of the map. When it names a member of [Object.prototype],
    such as [constructor] or [toString], [blockMap[blockId]] is that
    member: line 55 does not return, and [block.value.type] of line 57
    throws a [TypeError]. For every other identifier the call returns
    [undefined], for every rule set and both values of [isTopLevel]. *)
Theorem transform_missing_block fuel blockMap blockId rules top :
  get blockMap blockId = None ->
  (In blockId JSObject.prototypeNames ->
   transform (S fuel) blockMap blockId rules top = Throw TypeError)
  /\ (~ In blockId JSObject.prototypeNames ->
      transform (S fuel) blockMap blockId rules top = Ret None).
Proof.
  intros Hg. cbn [transformBlockMap]. rewrite Hg.
  destruct (JSObject.inherited blockId) eqn:Hi.
  - split; [reflexivity|]. intros Hn. destruct Hn. now apply inherited_In.
  - split; [|reflexivity]. intros Hin. apply inherited_In in Hin. congruence.
Qed.

(** C6. A block of type header, sub_header or sub_sub_header is given
    to the rule of kind [header] with content [{ text, level }], the
    text being the flattened title and the level 1, 2 or 3, and with
    no children. *)
Theorem transform_header fuel blockMap blockId rules top block v level :
  get blockMap blockId = Some block -> value block = Some v ->
  (NotionTypes.type v = "header" /\ level = 1%Z)
  \/ (NotionTypes.type v = "sub_header" /\ level = 2%Z)
  \/ (NotionTypes.type v = "sub_sub_header" /\ level = 3%Z) ->
  transform (S fuel) blockMap blockId rules top
  = Ret (callRule rules "header" blockId
                  (CHeader (getTextContent (prop title v)) (Some level))
                  None).
Proof.
  intros Hg Hv Hty. apply (transform_leaf _ _ _ _ _ _ _ _ _ Hg Hv); [|reflexivity].
  unfold switch.
  destruct Hty as [[-> ->]|[[-> ->]|[-> ->]]]; reflexivity.
Qed.

(** A page below the top level that has a properties bag is given to
    the rule of kind [pageLink] with content [{ title, icon }] and no
    children, whatever its child list. *)
Lemma transform_pageLink fuel blockMap blockId rules block v p :
  get blockMap blockId = Some block -> value block = Some v ->
  NotionTypes.type v = "page" -> properties v = Some p ->
  transform (S fuel) blockMap blockId rules false
  = Ret (callRule rules "pageLink" blockId
                  (CPageLink (first (title p)) (fmt page_icon v)) None).
Proof.
  intros Hg Hv Hty Hp. apply (transform_leaf _ _ _ _ _ _ _ _ _ Hg Hv); [|reflexivity].
  unfold switch, propertiesOf. rewrite Hty, Hp. reflexivity.
Qed.

Lemma tocEntry_entriesOf blockMap id :
  filterObjects [tocEntry getTextContent blockMap id]
  = Toc.entriesOf getTextContent blockMap id.
Proof.
  unfold tocEntry, Toc.entriesOf.
  destruct (valueAt blockMap id) as [bv|]; [|reflexivity].
  destruct (String.eqb_spec (NotionTypes.type bv) "header") as [E|_].
  { simpl. unfold Toc.entry. now rewrite E. }
  destruct (String.eqb_spec (NotionTypes.type bv) "sub_header") as [E|_].
  { simpl. unfold Toc.entry. now rewrite E. }
  destruct (String.eqb_spec (NotionTypes.type bv) "sub_sub_header") as [E|_].
  { simpl. unfold Toc.entry. now rewrite E. }
  reflexivity.
Qed.

Lemma tocContent_headerEntries blockMap page :
  tocContent getTextContent blockMap page
  = Toc.headerEntries getTextContent blockMap (orEmpty (content page)).
Proof.
  unfold tocContent, Toc.headerEntries.
  induction (orEmpty (content page)) as [|id ids IH]; [reflexivity|].
  cbn [map flat_map]. rewrite <- IH, <- tocEntry_entriesOf. simpl.
  now destruct (tocEntry getTextContent blockMap id).
Qed.

(** C2. The content of a table_of_contents block is the list of
    entries [{ id, level, text }] of the header-family children of the
    page [getTopLevelPageBlock] returns, in their order; other children
    and children absent from the map yield no entry, and the block has
    no children of its own. *)
Theorem transform_table_of_contents fuel blockMap blockId rules top block v :
  get blockMap blockId = Some block -> value block = Some v ->
  NotionTypes.type v = "table_of_contents" ->
  transform (S fuel) blockMap blockId rules top
  = Ret (callRule rules "table_of_contents" blockId
           (CToc (Toc.headerEntries getTextContent blockMap
                    (orEmpty (content (getTopLevelPageBlock v blockMap)))))
           None).
Proof.
  intros Hg Hv Hty. apply (transform_leaf _ _ _ _ _ _ _ _ _ Hg Hv); [|reflexivity].
  unfold switch. rewrite Hty. cbn [tagOf assoc labels String.eqb Ascii.eqb Bool.eqb].
  now rewrite tocContent_headerEntries.
Qed.

(** C9. For a bookmark whose link property has a first span, the
    content's [title] and [desc] are the same string, the
    concatenation of the text spans of the title property. *)
Theorem bookmark_title_is_desc fuel blockMap blockId rules top block v
        p d rest :
  get blockMap blockId = Some block -> value block = Some v ->
  NotionTypes.type v = "bookmark" ->
  properties v = Some p -> link p = Some (d :: rest) ->
  exists s,
    s = String.concat "" (map text (orEmpty (getTextContent (title p))))
    /\ transform (S fuel) blockMap blockId rules top
       = Ret (callRule rules "bookmark" blockId
                (CBookmark (fst d) s s (fmt bookmark_icon v)
                           (fmt bookmark_cover v) (fmt block_color v))
                None).
Proof.
  intros Hg Hv Hty Hp Hl. eexists. split; [reflexivity|].
  apply (transform_leaf _ _ _ _ _ _ _ _ _ Hg Hv); [|reflexivity].
  unfold switch, propertiesOf. rewrite Hty, Hp.
  cbn [tagOf assoc labels String.eqb Ascii.eqb Bool.eqb bind].
  unfold firstStrict. rewrite Hl. destruct d as [s ds].
  cbn [bind fst]. now rewrite joinText_concat.
Qed.

(** *** The rule call *)

Lemma filterBoolean_truthyOnes (rs : list (option T)) :
  filterBoolean Boolean rs = Cases.truthyOnes Boolean rs.
Proof.
  unfold Cases.truthyOnes.
  induction rs as [|[t|] rs IH]; simpl; [reflexivity| |exact IH].
  destruct (Boolean t); simpl; now rewrite IH.
Qed.

(** C3 (amended). For a block of the map whose case of the switch
    completes with kind, content and child identifiers, and whose calls
    on the child identifiers return [rs], in the order of the child
    list: the children handed on are [undefined] when the case maps no
    child list, and otherwise the entries of [rs] that are truthy, each
    of them and in their order, the [undefined] and the other falsy ones
    being dropped. When [transformationRules[kind]] is a function, the
    result is that function applied to the identifier, the content and
    these children; when the read finds nothing to call, and the kind is
    none of [__proto__], [__defineGetter__] and [__defineSetter__], the
    result is [undefined]. *)
Theorem transform_calls_rule fuel blockMap blockId rules top block v
        kind c ids rs :
  get blockMap blockId = Some block -> value block = Some v ->
  dispatch blockMap blockId v top = Ret (kind, c, ids) ->
  childrenReturn Boolean getTextContent findListIndex
                 getTopLevelPageBlock mapImageURL fuel blockMap rules ids rs ->
  (forall rule,
      rules kind = Some rule ->
      transform (S fuel) blockMap blockId rules top
      = Ret (Some (rule blockId c
                        (option_map (Cases.truthyOnes Boolean) rs))))
  /\ (rules kind = None ->
      kind <> "__proto__" -> kind <> "__defineGetter__" ->
      kind <> "__defineSetter__" ->
      transform (S fuel) blockMap blockId rules top = Ret None).
Proof.
  intros Hg Hv Hd Hc.
  assert (E : transform (S fuel) blockMap blockId rules top
              = applyRule rules kind blockId c
                          (option_map (Cases.truthyOnes Boolean) rs)).
  { rewrite (transform_step _ _ _ _ _ _ _ Hg Hv), Hd. cbn [bind].
    destruct Hc as [|l rs Hall]; [reflexivity|].
    unfold mapOpt. rewrite (mapM_Forall2 _ _ _ _ _ Hall).
    cbn [bind option_map]. now rewrite filterBoolean_truthyOnes. }
  rewrite E. unfold applyRule. split.
  - intros rule Hr. now rewrite Hr.
  - intros Hr H1 H2 H3. rewrite Hr. unfold JSObject.unusable.
    destruct (String.eqb_spec kind "__proto__"); [contradiction|].
    destruct (String.eqb_spec kind "__defineGetter__"); [contradiction|].
    destruct (String.eqb_spec kind "__defineSetter__"); [contradiction|].
    reflexivity.
Qed.

(** *** Cycles *)

Lemma dispatch_descends blockMap blockId v top kind c ids :
  Graph.descends top (NotionTypes.type v) = true ->
  dispatch blockMap blockId v top = Ret (kind, c, ids) ->
  ids = content v.
Proof.
  unfold Graph.descends, switch, propertiesOf.
  destruct (tagOf (NotionTypes.type v)); try discriminate;
    try (intros _ H; injection H as _ _ <-; reflexivity).
  - intros ->. intros H; injection H as _ _ <-; reflexivity.
  - intros _. destruct (properties v); [|discriminate].
    intros H; injection H as _ _ <-; reflexivity.
Qed.

Lemma valueAt_get blockMap id v :
  valueAt blockMap id = Some v ->
  exists block, get blockMap id = Some block /\ value block = Some v.
Proof.
  unfold valueAt. destruct (get blockMap id) as [b|]; [|discriminate].
  intros H. now exists b.
Qed.

Lemma childOf_content blockMap x y v :
  valueAt blockMap x = Some v -> Graph.childOf blockMap x y ->
  exists l, content v = Some l /\ In y l.
Proof.
  unfold Graph.childOf, Graph.childIds. intros ->.
  destruct (content v) as [l|]; [|intros []]. intros H. now exists l.
Qed.

Lemma call_never_returns fuel blockMap rules top x y :
  Graph.callsOn blockMap top x y ->
  (forall r, transform fuel blockMap y rules false <> Ret r) ->
  forall r, transform (S fuel) blockMap x rules top <> Ret r.
Proof.
  intros [v [Hv [Hd Hc]]] Hy r.
  destruct (valueAt_get _ _ _ Hv) as [b [Hg Hb]].
  rewrite (transform_step _ _ _ _ _ _ _ Hg Hb).
  destruct (dispatch blockMap x v top) as [[[kind c] ids]| |] eqn:Hs;
    try discriminate.
  rewrite (dispatch_descends _ _ _ _ _ _ _ Hd Hs).
  destruct (childOf_content _ _ _ _ Hv Hc) as [l [-> Hin]].
  cbn [bind mapOpt].
  destruct (mapM (fun id => transform fuel blockMap id rules false) l)
    as [rs| |] eqn:Hm; try discriminate.
  exfalso. exact (mapM_never_returns _ _ _ _ _ Hin Hy rs Hm).
Qed.

(** A block that leads to a cycle has a successor that does. *)
Lemma towardsCycle_next blockMap x :
  Graph.towardsCycle blockMap x ->
  exists y, Graph.callsOn blockMap false x y /\ Graph.towardsCycle blockMap y.
Proof.
  intros [c [Hxc Hcc]]. apply clos_rt_rt1n in Hxc.
  destruct Hxc as [|y z Hxy Hyz].
  - pose proof (clos_trans_t1n _ _ _ _ Hcc) as Hc1.
    inversion Hc1 as [y Hxy|y z Hxy Hyz]; subst.
    + exists x. split; [exact Hxy|].
      exists x. split; [apply rt_refl|exact Hcc].
    + exists y. split; [exact Hxy|]. exists x. split; [|exact Hcc].
      apply clos_t_clos_rt, clos_t1n_trans, Hyz.
  - exists y. split; [exact Hxy|]. exists z. split; [|exact Hcc].
    apply clos_rt1n_rt, Hyz.
Qed.

Lemma towardsCycle_never_returns fuel blockMap rules : forall x,
  Graph.towardsCycle blockMap x ->
  forall r, transform fuel blockMap x rules false <> Ret r.
Proof.
  induction fuel as [|fuel IH]; intros x Hx r; [discriminate|].
  destruct (towardsCycle_next _ _ Hx) as [y [Hxy Hy]].
  exact (call_never_returns _ _ _ _ _ _ Hxy (IH y Hy) r).
Qed.

(** C4 (amended). When the call on the root maps over a child list
    naming a block from which the calls lead to a cycle, no fuel makes
    it return: nothing detects the cycle, and the recursion goes on
    unless a [TypeError] of a block on the way ends it. *)
Theorem transform_never_returns_on_cycle blockMap root rules top :
  Graph.entersCycle blockMap top root ->
  forall fuel,
    transform fuel blockMap root rules top = Diverge
    \/ transform fuel blockMap root rules top = Throw TypeError.
Proof.
  intros [y [Hry Hy]] fuel.
  assert (H : forall r, transform fuel blockMap root rules top <> Ret r).
  { destruct fuel as [|fuel]; [discriminate|].
    apply (call_never_returns _ _ _ _ _ _ Hry).
    apply towardsCycle_never_returns. exact Hy. }
  destruct (transform fuel blockMap root rules top) as [r|[]|];
    [now destruct (H r)|now right|now left].
Qed.


(** *** Termination on acyclic maps *)

Lemma dispatch_ids blockMap blockId v top kind c l :
  dispatch blockMap blockId v top = Ret (kind, c, Some l) ->
  content v = Some l.
Proof.
  unfold switch, propertiesOf, firstOfPresent, firstStrict.
  destruct (tagOf (NotionTypes.type v)); try destruct top;
    repeat (cbn [bind];
            match goal with
            | |- context [bind (match ?x with _ => _ end) _] => destruct x
            end);
    cbn [bind]; intros H; try discriminate H;
    injection H as _ _ H; exact H.
Qed.

Lemma dispatch_comes_back blockMap blockId v top :
  dispatch blockMap blockId v top <> Diverge.
Proof.
  unfold switch, propertiesOf, firstOfPresent, firstStrict.
  destruct (tagOf (NotionTypes.type v)); try destruct top;
    repeat (cbn [bind];
            match goal with
            | |- context [bind (match ?x with _ => _ end) _] => destruct x
            end);
    cbn [bind]; discriminate.
Qed.

Lemma transform_more_fuel n : forall blockMap blockId rules top,
  transform n blockMap blockId rules top <> Diverge ->
  forall m, n <= m ->
  transform m blockMap blockId rules top
  = transform n blockMap blockId rules top.
Proof.
  induction n as [|n IH]; intros blockMap blockId rules top Hd m Hm;
    [now destruct Hd|].
  destruct m as [|m]; [lia|]. revert Hd. cbn [transformBlockMap].
  destruct (get blockMap blockId) as [block|]; [|reflexivity].
  destruct (valueOf block) as [v| |]; cbn [bind]; try reflexivity.
  destruct (dispatch blockMap blockId v top) as [[[kind c] ids]| |];
    cbn [bind]; try reflexivity.
  destruct ids as [l|]; cbn [mapOpt bind]; [|reflexivity].
  intros Hd.
  rewrite (mapM_more_fuel _ _
             (fun id => transform n blockMap id rules false)
             (fun id => transform m blockMap id rules false) l);
    [reflexivity| |].
  - intros a _ Ha. apply IH; [exact Ha|lia].
  - intros Hl. rewrite Hl in Hd. now apply Hd.
Qed.

Lemma transform_within_chain n : forall blockMap x rules top,
  ~ Graph.chain blockMap n x ->
  transform n blockMap x rules top <> Diverge.
Proof.
  induction n as [|n IH]; intros blockMap x rules top Hc.
  - destruct Hc. constructor.
  - cbn [transformBlockMap].
    destruct (get blockMap x) as [block|] eqn:Hg;
      [|destruct (JSObject.inherited x); discriminate].
    unfold valueOf. destruct (value block) as [v|] eqn:Hv;
      cbn [bind]; [|discriminate].
    pose proof (dispatch_comes_back blockMap x v top) as Hs.
    destruct (dispatch blockMap x v top) as [[[kind c] ids]| |] eqn:Hd;
      cbn [bind]; [|discriminate|now destruct Hs].
    destruct ids as [l|]; cbn [mapOpt bind];
      [|apply applyRule_comes_back].
    assert (Hl : mapM (fun id => transform n blockMap id rules false) l
                 <> Diverge).
    { apply mapM_comes_back. intros y Hy. apply IH. intros Hcy.
      apply Hc. apply Graph.chain_S with (y := y); [|exact Hcy].
      unfold Graph.childOf, Graph.childIds, valueAt.
      rewrite Hg, Hv, (dispatch_ids _ _ _ _ _ _ _ Hd). exact Hy. }
    destruct (mapM _ l); cbn [bind];
      [apply applyRule_comes_back|discriminate|].
    now destruct Hl.
Qed.

Lemma get_keys blockMap id block :
  get blockMap id = Some block -> In id (keys blockMap).
Proof.
  induction blockMap as [|[k b] rest IH]; simpl; [discriminate|].
  destruct (String.eqb_spec k id) as [->|_]; [now left|].
  intros H. right. now apply IH.
Qed.

Lemma childOf_keys blockMap x y :
  Graph.childOf blockMap x y -> In x (keys blockMap).
Proof.
  unfold Graph.childOf, Graph.childIds, valueAt.
  destruct (get blockMap x) as [b|] eqn:Hg; [|intros []].
  intros _. exact (get_keys _ _ _ Hg).
Qed.

(** On an acyclic map a chain visits pairwise distinct keys, so it is
    shorter than the map. *)
Lemma acyclic_chain_bound blockMap :
  Graph.acyclic blockMap ->
  forall k seen x,
    NoDup seen -> incl seen (keys blockMap) ->
    (forall s, In s seen -> clos_trans ID (Graph.childOf blockMap) s x) ->
    length (keys blockMap) - length seen <= k ->
    ~ Graph.chain blockMap (S k) x.
Proof.
  intros Hac. induction k as [|k IH]; intros seen x Hnd Hincl Hanc Hk Hch;
    inversion Hch as [|n x' y Hxy Hy]; subst.
  - assert (Hx : ~ In x seen) by (intros Hs; exact (Hac x (Hanc x Hs))).
    assert (Hlen : length (x :: seen) <= length (keys blockMap)).
    { apply NoDup_incl_length; [now constructor|].
      intros z [<-|Hz]; [exact (childOf_keys _ _ _ Hxy)|now apply Hincl]. }
    simpl in Hlen. lia.
  - assert (Hx : ~ In x seen) by (intros Hs; exact (Hac x (Hanc x Hs))).
    assert (Hlen : length (x :: seen) <= length (keys blockMap)).
    { apply NoDup_incl_length; [now constructor|].
      intros z [<-|Hz]; [exact (childOf_keys _ _ _ Hxy)|now apply Hincl]. }
    apply (IH (x :: seen) y); [now constructor| | | |exact Hy].
    + intros z [<-|Hz]; [exact (childOf_keys _ _ _ Hxy)|now apply Hincl].
    + intros s [<-|Hs]; [now apply t_step|].
      eapply t_trans; [exact (Hanc s Hs)|now apply t_step].
    + simpl in *. lia.
Qed.

Lemma filterBoolean_In rs t :
  In t (filterBoolean Boolean rs) -> In (Some t) rs.
Proof.
  induction rs as [|[t'|] rs IH]; simpl; [intros []| |].
  - destruct (Boolean t'); [intros [->|H]; [now left|]|intros H];
      right; now apply IH.
  - intros H. right. now apply IH.
Qed.

(** Every call of a rule is for a block of the map that is reachable
    from the root, and gets children built the same way. *)
Lemma transform_nodes blockMap root rules (P : T -> Prop) :
  (forall kind rule id c children,
      rules kind = Some rule ->
      Graph.reachable blockMap root id -> get blockMap id <> None ->
      (forall t, In t (orEmpty children) -> P t) ->
      P (rule id c children)) ->
  forall fuel x top t,
    Graph.reachable blockMap root x ->
    transform fuel blockMap x rules top = Ret (Some t) -> P t.
Proof.
  intros Hrules. induction fuel as [|fuel IH]; intros x top t Hx;
    [discriminate|].
  cbn [transformBlockMap].
  destruct (get blockMap x) as [block|] eqn:Hg;
    [|destruct (JSObject.inherited x); discriminate].
  unfold valueOf. destruct (value block) as [v|] eqn:Hv;
    cbn [bind]; [|discriminate].
  destruct (dispatch blockMap x v top) as [[[kind c] ids]| |] eqn:Hd;
    cbn [bind]; try discriminate.
  destruct (mapOpt (fun id => transform fuel blockMap id rules false) ids)
    as [children| |] eqn:Hm; cbn [bind]; try discriminate.
  unfold applyRule. destruct (rules kind) as [rule|] eqn:Hr;
    [|destruct (JSObject.unusable kind); discriminate].
  intros H. injection H as <-.
  apply (Hrules kind); [exact Hr|exact Hx|now rewrite Hg|].
  intros t Ht. destruct ids as [l|]; cbn [mapOpt] in Hm.
  - destruct (mapM (fun id => transform fuel blockMap id rules false) l)
      as [rs| |] eqn:Hl; try discriminate.
    cbn [bind] in Hm. injection Hm as <-. cbn [option_map orEmpty] in Ht.
    apply filterBoolean_In in Ht.
    destruct (mapM_In _ _ _ _ _ _ Hl Ht) as [y [Hy Hty]].
    apply (IH y false t); [|exact Hty].
    eapply rt_trans; [exact Hx|]. apply rt_step.
    unfold Graph.childOf, Graph.childIds, valueAt.
    rewrite Hg, Hv, (dispatch_ids _ _ _ _ _ _ _ Hd). exact Hy.
  - injection Hm as <-. destruct Ht.
Qed.

(** C5. On a map without a cycle of child references the call comes
    back, with the same outcome for every fuel from some bound on; and
    every rule call that builds a node of the output is for a block of
    the map reachable from the root, so that a property [P] the rules
    establish from such identifiers and from children satisfying [P]
    holds of the output. *)
Theorem transform_terminates_on_acyclic blockMap root rules top :
  Graph.acyclic blockMap ->
  (exists fuel r,
      r <> Diverge
      /\ forall fuel', fuel <= fuel' ->
                       transform fuel' blockMap root rules top = r)
  /\ (forall P : T -> Prop,
         (forall kind rule id c children,
             rules kind = Some rule ->
             Graph.reachable blockMap root id -> get blockMap id <> None ->
             (forall t, In t (orEmpty children) -> P t) ->
             P (rule id c children)) ->
         forall fuel t,
           transform fuel blockMap root rules top = Ret (Some t) -> P t).
Proof.
  intros Hac. split.
  - set (n := S (length (keys blockMap))).
    assert (Hn : transform n blockMap root rules top <> Diverge).
    { apply transform_within_chain.
      apply (acyclic_chain_bound blockMap Hac _ [] root);
        [constructor|intros z []|intros s []|simpl; lia]. }
    exists n, (transform n blockMap root rules top).
    split; [exact Hn|]. intros fuel' Hle.
    now apply transform_more_fuel.
  - intros P Hrules fuel t.
    apply (transform_nodes blockMap root rules P Hrules fuel root top t).
    apply rt_refl.
Qed.

End TransformFacts.

(** ** The properties at concrete inputs *)

Section Concrete.

Import Fixtures.

Lemma nowhere_not_inherited : ~ In "nowhere" JSObject.prototypeNames.
Proof.
  simpl. intros H.
  repeat (destruct H as [H|H]; [discriminate H|]). exact H.
Qed.

(** The identifier [constructor] is no key of the map, and the call on it
    throws; the call on an identifier that names nothing returns
    [undefined]. *)
Lemma transform_missing_block_witness :
  get document "constructor" = None
  /\ run 1 document "constructor" recording true = Throw TypeError
  /\ get document "nowhere" = None
  /\ run 1 document "nowhere" recording false = Ret None.
Proof.
  split; [reflexivity|]. split; [|split; [reflexivity|]].
  - exact (proj1 (transform_missing_block out outBoolean textOf listIndex
                    topPage imageURL 0 document "constructor" recording true
                    eq_refl)
                 (or_introl eq_refl)).
  - exact (proj2 (transform_missing_block out outBoolean textOf listIndex
                    topPage imageURL 0 document "nowhere" recording false
                    eq_refl)
                 nowhere_not_inherited).
Defined.

Lemma transform_header_witness :
  typeAt withHeaders "h3" = Some "sub_sub_header"
  /\ run 1 withHeaders "h3" recording false
     = Ret (Some (Node "header" "h3"
                       (CHeader (Some [{| text := "Three"; marks := [] |}])
                                (Some 3%Z))
                       None)).
Proof.
  split; [reflexivity|].
  exact (transform_header out outBoolean textOf listIndex topPage imageURL
           0 withHeaders "h3" recording false _ _ 3%Z eq_refl eq_refl
           (or_intror (or_intror (conj eq_refl eq_refl)))).
Defined.

Lemma transform_table_of_contents_witness :
  typeAt withHeaders "toc" = Some "table_of_contents"
  /\ run 1 withHeaders "toc" recording false
     = Ret (Some (Node "table_of_contents" "toc"
              (CToc [ {| toc_id := "h1"; toc_level := Some 1%Z;
                         toc_text := Some [{| text := "One"; marks := [] |}] |};
                      {| toc_id := "h3"; toc_level := Some 3%Z;
                         toc_text := Some [{| text := "Three"; marks := [] |}] |};
                      {| toc_id := "h2"; toc_level := Some 2%Z;
                         toc_text := Some [{| text := "Two"; marks := [] |}] |} ])
              None)).
Proof.
  split; [reflexivity|].
  exact (transform_table_of_contents out outBoolean textOf listIndex topPage
           imageURL 0 withHeaders "toc" recording false _ _
           eq_refl eq_refl eq_refl).
Defined.

Lemma bookmark_title_is_desc_witness :
  exists s,
    s = "Rocq prover"
    /\ run 1 bookmarked "bm" recording false
       = Ret (Some (Node "bookmark" "bm"
                (CBookmark "https://rocq-prover.org" s s None None None)
                None)).
Proof.
  exact (bookmark_title_is_desc out outBoolean textOf listIndex topPage
           imageURL 0 bookmarked "bm" recording false _ _ _ _ _
           eq_refl eq_refl eq_refl eq_refl eq_refl).
Defined.

(** C1 at a linked page without a properties bag: line 75 reads
    [block.value.properties.title] and throws, where the claim has
    kind [pageLink] and content [{ title: undefined, icon }]. *)
Lemma transform_untitled_page_link_throws :
  valueAt untitledLink "sub"
  = Some {| NotionTypes.type := "page"; properties := None; format := None;
            content := None; collection_id := None; view_ids := None |}
  /\ run 1 untitledLink "sub" recording false = Throw TypeError
  /\ run 2 untitledLink "root" recording true = Throw TypeError.
Proof. split; [reflexivity|split; reflexivity]. Qed.

(** C3, as stated, fails: the transform of the child [a] is the number
    [0], which is not [undefined], and it is dropped from the children
    the rule of the page receives. *)
Lemma transform_drops_falsy_child :
  run 1 onlyText "a" zeroText false = Ret (Some (Num 0))
  /\ run 2 onlyText "root" zeroText true
     = Ret (Some (Node "page" "root" CUndefined (Some [])))
  /\ run 2 onlyText "root" zeroText true
     <> Ret (Some (Node "page" "root" CUndefined (Some [Num 0]))).
Proof. split; [reflexivity|split; [reflexivity|discriminate]]. Qed.

(** Four children: a header, a text whose rule returns [0], an absent
    identifier and a quote. The rule of the page receives the header
    node and the quote node, in this order. *)
Lemma transform_calls_rule_witness :
  childrenReturn outBoolean textOf listIndex topPage imageURL
                 1 MoreFixtures.mixedChildren zeroText
                 (Some ["h"; "a"; "m"; "q"])
                 (Some [ Some MoreFixtures.headerNode; Some (Num 0); None;
                         Some MoreFixtures.quoteNode ])
  /\ run 2 MoreFixtures.mixedChildren "root" zeroText true
     = Ret (Some (Node "page" "root" CUndefined
                       (Some [ MoreFixtures.headerNode;
                               MoreFixtures.quoteNode ]))).
Proof.
  assert (H : childrenReturn outBoolean textOf listIndex topPage imageURL
                1 MoreFixtures.mixedChildren zeroText
                (Some ["h"; "a"; "m"; "q"])
                (Some [ Some MoreFixtures.headerNode; Some (Num 0); None;
                        Some MoreFixtures.quoteNode ])).
  { constructor. repeat (constructor; [reflexivity|]). constructor. }
  split; [exact H|].
  exact (proj1 (transform_calls_rule out outBoolean textOf listIndex topPage
                  imageURL 1 MoreFixtures.mixedChildren "root" zeroText true
                  _ _ "page" CUndefined (Some ["h"; "a"; "m"; "q"]) _
                  eq_refl eq_refl eq_refl H)
               (Node "page") eq_refl).
Defined.

Lemma loop_diverges fuel : forall top,
  run fuel loop "a" recording top = Diverge
  /\ run fuel loop "b" recording top = Diverge.
Proof.
  unfold run. induction fuel as [|fuel IH]; intros top; [now split|].
  destruct (IH false) as [Ha Hb].
  split; cbn [transformBlockMap]; cbn -[transformBlockMap];
    [now rewrite Hb|now rewrite Ha].
Qed.

(** C4, as stated, fails: [a] lists [b] and [b] lists [a], and the call
    on [a] raises nothing; it never comes back. *)
Lemma transform_loop_raises_nothing :
  Graph.childOf loop "a" "b" /\ Graph.childOf loop "b" "a"
  /\ forall fuel, run fuel loop "a" recording true = Diverge.
Proof.
  split; [now left|]. split; [now left|].
  intros fuel. apply (loop_diverges fuel true).
Qed.

Lemma loop_calls (x y : ID) :
  (x = "a" /\ y = "b") \/ (x = "b" /\ y = "a") ->
  forall top, Graph.callsOn loop top x y.
Proof.
  intros [[-> ->]|[-> ->]] top; eexists; (split; [reflexivity|]);
    (split; [reflexivity|]); now left.
Qed.

Lemma transform_never_returns_on_cycle_witness :
  Graph.entersCycle loop true "a"
  /\ forall fuel,
      run fuel loop "a" recording true = Diverge
      \/ run fuel loop "a" recording true = Throw TypeError.
Proof.
  assert (H : Graph.entersCycle loop true "a").
  { exists "b". split; [apply loop_calls; now left|].
    exists "b". split; [apply rt_refl|].
    apply t_trans with (y := "a"); apply t_step, loop_calls;
      [now right|now left]. }
  split; [exact H|].
  exact (transform_never_returns_on_cycle out outBoolean textOf listIndex
           topPage imageURL loop "a" recording true H).
Defined.

Lemma ranked_acyclic blockMap (rk : ID -> nat) :
  (forall x y, Graph.childOf blockMap x y -> rk y < rk x) ->
  Graph.acyclic blockMap.
Proof.
  intros Hr.
  assert (H : forall x y, clos_trans ID (Graph.childOf blockMap) x y ->
                          rk y < rk x).
  { induction 1 as [x y Hxy|x y z _ IH1 _ IH2]; [now apply Hr|lia]. }
  intros x Hx. specialize (H x x Hx). lia.
Qed.

Lemma document_acyclic : Graph.acyclic document.
Proof.
  apply (ranked_acyclic document rank). intros x y.
  unfold Graph.childOf, Graph.childIds, valueAt, document.
  cbn [get].
  destruct (String.eqb_spec "root" x) as [<-|_].
  { cbn. intros [<-|[<-|[]]]; vm_compute; lia. }
  destruct (String.eqb_spec "a" x) as [<-|_]; [intros []|].
  destruct (String.eqb_spec "b" x) as [<-|_]; intros [].
Qed.

Lemma transform_terminates_on_acyclic_witness :
  Graph.acyclic document
  /\ (exists fuel r,
         r <> Diverge
         /\ forall fuel', fuel <= fuel' ->
                          run fuel' document "root" recording true = r)
  /\ (forall fuel t,
         run fuel document "root" recording true = Ret (Some t) ->
         forall id, In id (nodeIds t) ->
                    Graph.reachable document "root" id
                    /\ get document id <> None).
Proof.
  pose proof document_acyclic as Hac.
  destruct (transform_terminates_on_acyclic out outBoolean textOf listIndex
              topPage imageURL document "root" recording true Hac)
    as [Hterm Hnodes].
  split; [exact Hac|]. split; [exact Hterm|].
  intros fuel t.
  apply (Hnodes (fun t => forall id, In id (nodeIds t) ->
                          Graph.reachable document "root" id
                          /\ get document id <> None)).
  intros kind rule id c children Hr Hreach Hget Hch id' Hin.
  injection Hr as <-. simpl in Hin.
  destruct Hin as [<-|Hin]; [split; assumption|].
  destruct children as [l|]; [|destruct Hin].
  apply in_flat_map in Hin. destruct Hin as [t' [Ht' Hid]].
  exact (Hch t' Ht' id' Hid).
Defined.

End Concrete.

(** * Further properties *)

(** ** [groupBlocks]: what every returned array satisfies *)

Section GroupBlocksInvariants.

Variable blockMap : BlockMap.

(** The two ways a child changes the groups. *)
Lemma visitChild_cases gs st id st' :
  tracks gs st ->
  visitChild blockMap st id = Ret st' ->
  (startsGroup blockMap (type st) id = true
   /\ tracks (gs ++ [[id]]) st' /\ type st' = typeAt blockMap id)
  \/ (startsGroup blockMap (type st) id = false
      /\ exists gs0 cur, gs = gs0 ++ [cur]
                         /\ tracks (gs0 ++ [cur ++ [id]]) st'
                         /\ type st' = type st).
Proof.
  intros Ht Hv. destruct (startsGroup blockMap (type st) id) eqn:Hs.
  - left. rewrite (visitChild_opens blockMap gs st id Ht Hs) in Hv.
    injection Hv as <-. split; [reflexivity|]. split; [|reflexivity].
    split; simpl; [reflexivity|].
    destruct Ht as [_ ->]. rewrite length_app; simpl. lia.
  - right. split; [reflexivity|].
    destruct gs as [|cur gs0 _] using rev_ind.
    + rewrite (visitChild_no_group blockMap st id Ht Hs) in Hv. discriminate.
    + rewrite (visitChild_joins blockMap gs0 cur st id Ht Hs) in Hv.
      injection Hv as <-. exists gs0, cur. split; [reflexivity|].
      split; [|reflexivity]. split; simpl; [reflexivity|].
      destruct Ht as [_ ->]. now rewrite !length_app.
Qed.

(** An induction principle for the two loops: a property of the children
    seen so far, the groups and the tracked type that holds at the start,
    is kept by a child that opens a group, by a child that joins one and
    by the reset of the tracker, holds of what is returned. *)
Section Invariant.

Variable P : list ID -> list (list ID) -> option string -> Prop.

Hypothesis P_open : forall seen gs tr id,
  P seen gs tr -> startsGroup blockMap tr id = true ->
  P (seen ++ [id]) (gs ++ [[id]]) (typeAt blockMap id).
Hypothesis P_join : forall seen gs cur tr id,
  P seen (gs ++ [cur]) tr -> startsGroup blockMap tr id = false ->
  P (seen ++ [id]) (gs ++ [cur ++ [id]]) tr.
Hypothesis P_reset : forall seen gs tr, P seen gs tr -> P seen gs None.

Lemma walk_invariant ids : forall seen gs st st',
  tracks gs st -> P seen gs (type st) ->
  forEach (visitChild blockMap) ids st = Ret st' ->
  exists gs', tracks gs' st' /\ P (seen ++ ids) gs' (type st').
Proof.
  induction ids as [|id rest IH]; intros seen gs st st' Ht HP Hw;
    simpl in Hw.
  - injection Hw as <-. exists gs. now rewrite app_nil_r.
  - destruct (visitChild blockMap st id) as [st1| |] eqn:Hv; try discriminate.
    simpl in Hw.
    replace (seen ++ id :: rest) with ((seen ++ [id]) ++ rest)
      by (now rewrite <- app_assoc).
    destruct (visitChild_cases gs st id st1 Ht Hv)
      as [[Hs [Ht1 Hty]]|[Hs [gs0 [cur [-> [Ht1 Hty]]]]]].
    + apply (IH _ _ _ _ Ht1); [|exact Hw]. rewrite Hty. exact (P_open seen gs (type st) id HP Hs).
    + apply (IH _ _ _ _ Ht1); [|exact Hw]. rewrite Hty. exact (P_join seen gs0 cur (type st) id HP Hs).
Qed.

Lemma visitParent_invariant seen gs st id st' :
  tracks gs st -> P seen gs (type st) ->
  visitParent blockMap st id = Ret st' ->
  exists gs', tracks gs' st' /\ type st' = None
              /\ P (seen ++ Graph.childIds blockMap id) gs' None.
Proof.
  intros Ht HP Hv. unfold visitParent, Graph.childIds in *.
  destruct (valueAt blockMap id) as [v|]; [destruct (content v) as [ids|]|];
    simpl in Hv.
  - destruct (forEach (visitChild blockMap) ids st) as [st1| |] eqn:Hw;
      try discriminate.
    simpl in Hv. injection Hv as <-.
    destruct (walk_invariant ids seen gs st st1 Ht HP Hw) as [gs1 [[Hg Hi] HP1]].
    exists gs1. split; [split; assumption|]. split; [reflexivity|].
    exact (P_reset _ _ _ HP1).
  - injection Hv as <-. exists gs. rewrite app_nil_r.
    split; [exact Ht|]. split; [reflexivity|]. exact (P_reset _ _ _ HP).
  - injection Hv as <-. exists gs. rewrite app_nil_r.
    split; [exact Ht|]. split; [reflexivity|]. exact (P_reset _ _ _ HP).
Qed.

Lemma parents_invariant ks : forall seen gs st st',
  tracks gs st -> P seen gs (type st) ->
  forEach (visitParent blockMap) ks st = Ret st' ->
  exists gs', tracks gs' st'
              /\ P (seen ++ flat_map (Graph.childIds blockMap) ks) gs' None.
Proof.
  induction ks as [|k ks IH]; intros seen gs st st' Ht HP Hw; simpl in Hw.
  - injection Hw as <-. exists gs. rewrite app_nil_r.
    split; [exact Ht|]. exact (P_reset _ _ _ HP).
  - destruct (visitParent blockMap st k) as [st1| |] eqn:Hv; try discriminate.
    simpl in Hw.
    destruct (visitParent_invariant seen gs st k st1 Ht HP Hv)
      as [gs1 [Ht1 [Hty1 HP1]]].
    cbn [flat_map]. rewrite app_assoc.
    apply (IH _ gs1 st1 st' Ht1); [now rewrite Hty1|exact Hw].
Qed.

Lemma groupBlocks_invariant arr :
  P [] [] None ->
  groupBlocks blockMap = Ret arr ->
  exists gs, arr = JSArray.dense gs
             /\ P (flat_map (Graph.childIds blockMap) (keys blockMap)) gs None.
Proof.
  intros H0 Hg. unfold groupBlocks in Hg.
  destruct (forEach (visitParent blockMap) (keys blockMap) init)
    as [st| |] eqn:Hw; try discriminate.
  simpl in Hg. injection Hg as <-.
  destruct (parents_invariant (keys blockMap) [] [] init st tracks_init H0 Hw)
    as [gs [[Hgs _] HP]].
  exists gs. split; [exact Hgs|exact HP].
Qed.

End Invariant.

(** X1. A returned array has no hole, and its groups, one after the
    other, are the child lists of the keys, one after the other: no
    child identifier is lost, repeated or moved. *)
Theorem groupBlocks_partitions arr :
  groupBlocks blockMap = Ret arr ->
  exists gs, arr = JSArray.dense gs
             /\ List.concat gs
                = flat_map (Graph.childIds blockMap) (keys blockMap).
Proof.
  intros Hg.
  apply (groupBlocks_invariant (fun seen gs _ => List.concat gs = seen));
    [| | |reflexivity|exact Hg].
  - intros seen gs tr id H _. now rewrite concat_app, H.
  - intros seen gs cur tr id H _. rewrite <- H, !concat_app. simpl.
    now rewrite !app_nil_r, app_assoc.
  - auto.
Qed.

(** X2. No group of a returned array is empty. *)
Theorem groupBlocks_no_empty_group arr grp :
  groupBlocks blockMap = Ret arr -> In (Some grp) arr -> grp <> [].
Proof.
  intros Hg Hin.
  assert (HI : exists gs, arr = JSArray.dense gs
                          /\ Forall (fun g : list ID => g <> []) gs);
    [apply (groupBlocks_invariant
              (fun _ gs _ => Forall (fun g : list ID => g <> []) gs));
     [| | |constructor|exact Hg]
    |destruct HI as [gs [-> HF]]].
  - intros seen gs tr id H _. apply Forall_app. split; [exact H|].
    constructor; [discriminate|constructor].
  - intros seen gs cur tr id H _. apply Forall_app in H. destruct H as [H _].
    apply Forall_app. split; [exact H|].
    constructor; [|constructor]. now destruct cur.
  - auto.
  - unfold JSArray.dense in Hin. apply in_map_iff in Hin.
    destruct Hin as [g [Hg' Hin]]. injection Hg' as ->.
    rewrite Forall_forall in HF. now apply HF.
Qed.

Lemma typedAs_snoc t cur id :
  Groups.typedAs blockMap t cur ->
  (truthy_str (typeAt blockMap id) = true -> typeAt blockMap id = Some t) ->
  Groups.typedAs blockMap t (cur ++ [id]).
Proof.
  intros Hc Hid x Hx. apply in_app_or in Hx.
  destruct Hx as [Hx|[<-|[]]]; [now apply Hc|exact Hid].
Qed.

(** X3. In every group of a returned array, the children whose type is
    resolved all have the same type. *)
Theorem groupBlocks_groups_of_one_type arr grp :
  groupBlocks blockMap = Ret arr -> In (Some grp) arr ->
  Groups.sameType blockMap grp.
Proof.
  intros Hg Hin.
  assert (HI : exists gs,
             arr = JSArray.dense gs
             /\ (Forall (Groups.sameType blockMap) gs
                 /\ forall t gs0 cur, None = Some t -> gs = gs0 ++ [cur] ->
                                      Groups.typedAs blockMap t cur));
    [apply (groupBlocks_invariant
              (fun _ gs tr =>
                 Forall (Groups.sameType blockMap) gs
                 /\ forall t gs0 cur, tr = Some t -> gs = gs0 ++ [cur] ->
                                      Groups.typedAs blockMap t cur));
     [| | | |exact Hg]
    |destruct HI as [gs [-> [HF _]]]].
  - intros seen gs tr id [HF _] Hs. unfold startsGroup in Hs.
    apply andb_prop in Hs. destruct Hs as [Htr _].
    destruct (typeAt blockMap id) as [t|] eqn:Ety; [|discriminate].
    assert (Hid : Groups.typedAs blockMap t [id]).
    { intros x [<-|[]] _. exact Ety. }
    split.
    + apply Forall_app. split; [exact HF|].
      constructor; [now exists t|constructor].
    + intros t' gs0 cur Et Egs. injection Et as <-.
      apply app_inj_tail in Egs. destruct Egs as [_ <-]. exact Hid.
  - intros seen gs cur tr id [HF Hlast] Hs.
    apply Forall_app in HF. destruct HF as [HF Hcur].
    apply Forall_inv in Hcur.
    assert (Hnew : forall t, Groups.typedAs blockMap t cur ->
                             (tr = Some t \/ tr = None) ->
                             Groups.typedAs blockMap t (cur ++ [id])).
    { intros t Ht Htr. apply typedAs_snoc; [exact Ht|]. intros Hid.
      unfold startsGroup in Hs. rewrite Hid in Hs. simpl in Hs.
      destruct (typeAt blockMap id) as [s|]; [|discriminate].
      destruct Htr as [->| ->]; simpl in Hs; [|discriminate].
      apply negb_false_iff, String.eqb_eq in Hs. now subst. }
    split.
    + apply Forall_app. split; [exact HF|]. constructor; [|constructor].
      destruct tr as [t|].
      * exists t. apply Hnew; [|now left]. now apply (Hlast t gs cur).
      * destruct Hcur as [t Ht]. exists t. apply Hnew; [exact Ht|now right].
    + intros t gs0 cur0 Et Egs. apply app_inj_tail in Egs.
      destruct Egs as [_ <-]. apply Hnew; [|now left].
      now apply (Hlast t gs cur).
  - intros seen gs tr [HF _]. split; [exact HF|]. discriminate.
  - split; [constructor|]. discriminate.
  - unfold JSArray.dense in Hin. apply in_map_iff in Hin.
    destruct Hin as [g [Hg' Hin]]. injection Hg' as ->.
    rewrite Forall_forall in HF. now apply HF.
Qed.

(** Once a group is open, no child list makes the walk throw. *)
Lemma runsFrom_snoc ids : forall tr cur,
  exists gs c, runsFrom blockMap tr cur ids = gs ++ [c].
Proof.
  induction ids as [|id rest IH]; intros tr cur; simpl.
  - now exists [], cur.
  - destruct (startsGroup blockMap tr id).
    + destruct (IH (typeAt blockMap id) [id]) as [gs [c ->]].
      now exists (cur :: gs), c.
    + apply IH.
Qed.

Lemma walk_returns ids gs cur st :
  tracks (gs ++ [cur]) st ->
  exists gs' cur' st',
    forEach (visitChild blockMap) ids st = Ret st'
    /\ tracks (gs' ++ [cur']) st'.
Proof.
  intros Ht.
  destruct (walk_runsFrom blockMap ids gs cur st Ht) as [st' [Hw Ht']].
  destruct (runsFrom_snoc ids (type st) cur) as [gs1 [c E]].
  rewrite E, app_assoc in Ht'. now exists (gs ++ gs1), c, st'.
Qed.

Lemma visitParent_returns gs cur st id :
  tracks (gs ++ [cur]) st ->
  exists gs' cur' st',
    visitParent blockMap st id = Ret st'
    /\ tracks (gs' ++ [cur']) st' /\ type st' = None.
Proof.
  intros Ht. unfold visitParent.
  destruct (valueAt blockMap id) as [v|]; [destruct (content v) as [ids|]|].
  - destruct (walk_returns ids gs cur st Ht) as [gs' [cur' [st' [-> Ht']]]].
    simpl. exists gs', cur'. eexists. split; [reflexivity|].
    split; [exact Ht'|reflexivity].
  - simpl. exists gs, cur. eexists. split; [reflexivity|].
    split; [exact Ht|reflexivity].
  - simpl. exists gs, cur. eexists. split; [reflexivity|].
    split; [exact Ht|reflexivity].
Qed.

Lemma parents_return ks : forall gs cur st,
  tracks (gs ++ [cur]) st ->
  exists gs' st', forEach (visitParent blockMap) ks st = Ret st'
                  /\ tracks gs' st'.
Proof.
  induction ks as [|k ks IH]; intros gs cur st Ht; simpl.
  - now exists (gs ++ [cur]), st.
  - destruct (visitParent_returns gs cur st k Ht)
      as [gs1 [cur1 [st1 [-> [Ht1 _]]]]].
    simpl. exact (IH gs1 cur1 st1 Ht1).
Qed.

Lemma visitParent_childIds st id :
  visitParent blockMap st id
  = (st' <- forEach (visitChild blockMap) (Graph.childIds blockMap id) st ;;
     Ret {| groups := groups st'; type := None; index := index st' |}).
Proof.
  unfold visitParent, Graph.childIds.
  destruct (valueAt blockMap id) as [v|]; [destruct (content v)|]; reflexivity.
Qed.

Lemma parents_first_child ks : forall st,
  tracks [] st -> type st = None ->
  match flat_map (Graph.childIds blockMap) ks with
  | [] => exists st', forEach (visitParent blockMap) ks st = Ret st'
                      /\ tracks [] st'
  | c :: _ =>
      if truthy_str (typeAt blockMap c)
      then exists gs st', forEach (visitParent blockMap) ks st = Ret st'
                          /\ tracks gs st'
      else forEach (visitParent blockMap) ks st = Throw TypeError
  end.
Proof.
  induction ks as [|k ks IH]; intros st Ht Hty; cbn [flat_map forEach].
  - now exists st.
  - rewrite visitParent_childIds.
    destruct (Graph.childIds blockMap k) as [|c rest]; cbn [app forEach bind].
    + apply IH; [exact Ht|reflexivity].
    + destruct (truthy_str (typeAt blockMap c)) eqn:Hc.
      * assert (Hs : startsGroup blockMap (type st) c = true).
        { unfold startsGroup. rewrite Hc, Hty.
          now destruct (typeAt blockMap c). }
        rewrite (visitChild_opens blockMap [] st c Ht Hs). cbn [bind].
        destruct (walk_returns rest [] [c]
                    {| groups := JSArray.dense ([] ++ [[c]]);
                       type := typeAt blockMap c;
                       index := (index st + 1)%Z |})
          as [gs1 [cur1 [st1 [-> Ht1]]]].
        { split; simpl; [reflexivity|]. destruct Ht as [_ ->]. reflexivity. }
        cbn [bind].
        apply (parents_return ks gs1 cur1). exact Ht1.
      * assert (Hs : startsGroup blockMap (type st) c = false).
        { unfold startsGroup. now rewrite Hc. }
        now rewrite (visitChild_no_group blockMap st c Ht Hs).
Qed.

(** X4. [groupBlocks] throws exactly when the first child it meets has
    no resolved type: with no child at all it returns the empty array,
    with a first child of resolved type it returns an array without
    holes, and with a first child of unresolved type line 27 pushes onto
    [groups[-1]] and throws. *)
Theorem groupBlocks_throws_on_first_child :
  match Groups.firstChild blockMap with
  | None => groupBlocks blockMap = Ret []
  | Some c =>
      if truthy_str (typeAt blockMap c)
      then exists gs, groupBlocks blockMap = Ret (JSArray.dense gs)
      else groupBlocks blockMap = Throw TypeError
  end.
Proof.
  unfold Groups.firstChild, groupBlocks.
  pose proof (parents_first_child (keys blockMap) init tracks_init eq_refl)
    as H.
  destruct (flat_map (Graph.childIds blockMap) (keys blockMap)) as [|c rest];
    cbn [hd_error].
  - destruct H as [st' [-> [Hg _]]]. simpl. now rewrite Hg.
  - destruct (truthy_str (typeAt blockMap c)).
    + destruct H as [gs [st' [-> [Hg _]]]]. simpl. exists gs. now rewrite Hg.
    + now rewrite H.
Qed.

End GroupBlocksInvariants.

(** ** [groupBlocks] and the groups of the walk *)

Section GroupingFacts.

Import GroupBlocks Runs Grouping.

Variable blockMap : BlockMap.

(** Walking a child list from a state with a group under construction
    consumes the children from the front of the items left. *)
Lemma walk_groupsFrom ids : forall gs cur st,
  tracks (gs ++ [cur]) st ->
  exists st' gs' cur',
    forEach (visitChild blockMap) ids st = Ret st'
    /\ tracks (gs' ++ [cur']) st'
    /\ forall tail,
        gs ++ groupsFrom blockMap (type st) cur (map Some ids ++ tail)
        = gs' ++ groupsFrom blockMap (type st') cur' tail.
Proof.
  induction ids as [|id rest IH]; intros gs cur st Ht.
  - exists st, gs, cur. simpl. auto.
  - cbn [forEach map app groupsFrom].
    destruct (startsGroup blockMap (type st) id) eqn:Hs.
    + rewrite (visitChild_opens blockMap _ _ _ Ht Hs). cbn [bind].
      edestruct (IH (gs ++ [cur]) [id]) as [st' [gs' [cur' [Hw [Ht' He]]]]];
        [|exists st', gs', cur'; split; [exact Hw|split; [exact Ht'|]]].
      * split; simpl; [reflexivity|].
        destruct Ht as [_ ->]. rewrite !length_app; simpl. lia.
      * intros tail. rewrite <- (He tail). cbn [type].
        now rewrite <- app_assoc.
    + rewrite (visitChild_joins blockMap _ _ _ _ Ht Hs). cbn [bind].
      edestruct (IH gs (cur ++ [id])) as [st' [gs' [cur' [Hw [Ht' He]]]]];
        [|exists st', gs', cur'; split; [exact Hw|split; [exact Ht'|]]].
      * split; simpl; [reflexivity|].
        destruct Ht as [_ ->]. rewrite !length_app; simpl. lia.
      * intros tail. now rewrite <- (He tail).
Qed.

(** Forgetting the remembered type leaves the groups as they are. *)
Lemma tracks_reset gs st :
  tracks gs st ->
  tracks gs {| groups := groups st; type := None; index := index st |}.
Proof. intros [Hg Hi]. split; assumption. Qed.

Lemma walkOf_cons k ks :
  walkOf blockMap (k :: ks)
  = map Some (Graph.childIds blockMap k) ++ None :: walkOf blockMap ks.
Proof. unfold walkOf. cbn [flat_map]. now rewrite <- app_assoc. Qed.

(** Visiting the keys from a state with a group under construction. *)
Lemma parents_groupsFrom ks : forall gs cur st,
  tracks (gs ++ [cur]) st ->
  exists st',
    forEach (visitParent blockMap) ks st = Ret st'
    /\ tracks (gs ++ groupsFrom blockMap (type st) cur (walkOf blockMap ks)) st'.
Proof.
  induction ks as [|k ks IH]; intros gs cur st Ht.
  - exists st. split; [reflexivity|exact Ht].
  - cbn [forEach]. rewrite visitParent_childIds, walkOf_cons.
    destruct (walk_groupsFrom (Graph.childIds blockMap k) gs cur st Ht)
      as [st1 [gs1 [cur1 [-> [Ht1 He]]]]].
    cbn [bind]. rewrite He. cbn [groupsFrom].
    destruct (IH gs1 cur1 _ (tracks_reset _ _ Ht1)) as [st' [Hw Ht']].
    exists st'. split; [exact Hw|exact Ht'].
Qed.

(** Visiting the keys from the start, when the first child met has a
    truthy type. *)
Lemma parents_groupsOf ks : forall st,
  tracks [] st -> type st = None ->
  match flat_map (Graph.childIds blockMap) ks with
  | [] => True
  | c :: _ => truthy_str (typeAt blockMap c) = true
  end ->
  exists st',
    forEach (visitParent blockMap) ks st = Ret st'
    /\ tracks (groupsOf blockMap (walkOf blockMap ks)) st'.
Proof.
  induction ks as [|k ks IH]; intros st Ht Hty Hc.
  - exists st. split; [reflexivity|exact Ht].
  - cbn [forEach]. rewrite visitParent_childIds, walkOf_cons.
    cbn [flat_map] in Hc.
    destruct (Graph.childIds blockMap k) as [|c rest];
      cbn [app forEach bind map groupsOf] in *.
    + apply IH; [exact (tracks_reset _ _ Ht)|reflexivity|exact Hc].
    + assert (Hs : startsGroup blockMap (type st) c = true).
      { unfold startsGroup. rewrite Hc, Hty.
        now destruct (typeAt blockMap c). }
      rewrite (visitChild_opens blockMap [] st c Ht Hs). cbn [bind].
      destruct (walk_groupsFrom rest [] [c]
                  {| groups := JSArray.dense ([] ++ [[c]]);
                     type := typeAt blockMap c;
                     index := (index st + 1)%Z |})
        as [st1 [gs1 [cur1 [-> [Ht1 He]]]]].
      { split; simpl; [reflexivity|]. destruct Ht as [_ ->]. reflexivity. }
      cbn [bind]. cbn [type app] in He. rewrite He. cbn [groupsFrom].
      destruct (parents_groupsFrom ks gs1 cur1 _ (tracks_reset _ _ Ht1))
        as [st' [Hw Ht']].
      exists st'. split; [exact Hw|exact Ht'].
Qed.

(** The group under construction is the head of the groups to come. *)
Lemma groupsFrom_head items : forall tr cur,
  exists tail after,
    groupsFrom blockMap tr cur items = (cur ++ tail) :: after.
Proof.
  induction items as [|[id|] rest IH]; intros tr cur; cbn [groupsFrom].
  - exists [], []. now rewrite app_nil_r.
  - destruct (startsGroup blockMap tr id).
    + exists [], (groupsFrom blockMap (typeAt blockMap id) [id] rest).
      now rewrite app_nil_r.
    + destruct (IH tr (cur ++ [id])) as [tail [after ->]].
      exists (id :: tail), after. now rewrite <- app_assoc.
  - apply IH.
Qed.

(** Children without a truthy type at the start of a walk open no
    group: they are appended to the last group there is. *)
Lemma walk_unresolved_joins pre : forall gs st st',
  tracks gs st ->
  (forall x, In x pre -> truthy_str (typeAt blockMap x) = false) ->
  forEach (visitChild blockMap) pre st = Ret st' ->
  type st' = type st
  /\ ((pre = [] /\ tracks gs st')
      \/ exists gs0 g, gs = gs0 ++ [g] /\ tracks (gs0 ++ [g ++ pre]) st').
Proof.
  induction pre as [|x pre IH]; intros gs st st' Ht Hu Hw; cbn [forEach] in Hw.
  - injection Hw as <-. split; [reflexivity|]. left. now split.
  - destruct (visitChild blockMap st x) as [st1| |] eqn:Hv; try discriminate.
    cbn [bind] in Hw.
    destruct (visitChild_cases blockMap gs st x st1 Ht Hv)
      as [[Hs _]|[_ [gs0 [cur [-> [Ht1 Hty1]]]]]].
    { unfold startsGroup in Hs. rewrite (Hu x (or_introl eq_refl)) in Hs.
      discriminate Hs. }
    destruct (IH _ _ _ Ht1 (fun y Hy => Hu y (or_intror Hy)) Hw)
      as [Hty' [[-> Ht']|[gs0' [g' [E Ht']]]]].
    + split; [congruence|]. right. exists gs0, cur. now split.
    + apply app_inj_tail in E. destruct E as [<- <-].
      split; [congruence|]. right. exists gs0, cur.
      split; [reflexivity|]. now rewrite <- app_assoc in Ht'.
Qed.

End GroupingFacts.

Import GroupBlocks Runs Grouping.

(** C7 (amended). [groupBlocks] walks the child list of each key, in
    [Object.keys] order, with a remembered type that is forgotten after
    each child list. A child whose type is truthy and differs from the
    remembered one starts a new group and has its type remembered; every
    other child, of the remembered type or of no resolved type, is
    appended to the current group, also when that group was started
    under an earlier key. When the first child met has a truthy type, or
    there is no child at all, the array returned holds exactly these
    groups, in order and without a hole. *)
Theorem groupBlocks_grouping (blockMap : BlockMap) :
  match Groups.firstChild blockMap with
  | Some c => truthy_str (typeAt blockMap c) = true
  | None => True
  end ->
  groupBlocks blockMap = Ret (JSArray.dense (grouping blockMap)).
Proof.
  unfold Groups.firstChild, groupBlocks, grouping, walkOrder. intros Hc.
  destruct (parents_groupsOf blockMap (keys blockMap) init tracks_init eq_refl)
    as [st [-> [Hg _]]].
  - destruct (flat_map (Graph.childIds blockMap) (keys blockMap));
      [exact I|exact Hc].
  - cbn [bind]. now rewrite Hg.
Qed.

(** Children of types [text, text, divider, text] give the groups
    [[a; b]], [[c]], [[d]]. With the child [a] under one key and, under
    the next, the absent [m] followed by [b] of the type of [a], the
    groups are [[a; m]] and [[b]]. *)
Lemma groupBlocks_grouping_witness :
  Groups.firstChild Fixtures.fourChildren = Some "a"
  /\ groupBlocks Fixtures.fourChildren
     = Ret (JSArray.dense [["a"; "b"]; ["c"]; ["d"]])
  /\ Groups.firstChild MoreFixtures.acrossParents = Some "a"
  /\ groupBlocks MoreFixtures.acrossParents
     = Ret (JSArray.dense [["a"; "m"]; ["b"]]).
Proof.
  split; [reflexivity|]. split; [|split; [reflexivity|]].
  - exact (groupBlocks_grouping Fixtures.fourChildren eq_refl).
  - exact (groupBlocks_grouping MoreFixtures.acrossParents eq_refl).
Defined.

(** C10, as stated, fails: a group does continue from the last child of
    one parent into the first child of the next. With [a] the only child
    under [p], and the absent [m] followed by [b] under [q], the child
    [m] is put in the group of [a]. *)
Lemma groupBlocks_group_spans_parents :
  keys MoreFixtures.acrossParents = ["p"; "q"; "a"; "b"]
  /\ Graph.childIds MoreFixtures.acrossParents "p" = ["a"]
  /\ Graph.childIds MoreFixtures.acrossParents "q" = ["m"; "b"]
  /\ typeAt MoreFixtures.acrossParents "m" = None
  /\ groupBlocks MoreFixtures.acrossParents
     = Ret (JSArray.dense [["a"; "m"]; ["b"]]).
Proof. repeat split. Qed.

(** C10 (amended). The remembered type is forgotten after each child
    list, so under each key the first child [c] with a truthy type
    starts a group of the returned array, whatever the type of the
    children before it: the groups before the one of [c] hold exactly
    the children walked before [c]. The children [pre] that precede [c]
    under its key have no truthy type and start no group: when there are
    some, they end the last group [g ++ pre] before the one of [c],
    after the children [g] of earlier keys. *)
Theorem groupBlocks_first_resolved_child_opens (blockMap : BlockMap)
        (ks1 : list ID) (k : ID) (ks2 pre : list ID) (c : ID)
        (rest : list ID) (arr : JSArray.t (list ID)) :
  keys blockMap = ks1 ++ k :: ks2 ->
  Graph.childIds blockMap k = pre ++ c :: rest ->
  (forall x, In x pre -> truthy_str (typeAt blockMap x) = false) ->
  truthy_str (typeAt blockMap c) = true ->
  groupBlocks blockMap = Ret arr ->
  exists before tail after,
    arr = JSArray.dense (before ++ (c :: tail) :: after)
    /\ List.concat before = flat_map (Graph.childIds blockMap) ks1 ++ pre
    /\ (pre <> [] -> exists gs0 g, g <> [] /\ before = gs0 ++ [g ++ pre]).
Proof.
  intros Hk Hc Hu Htc Hg. unfold groupBlocks in Hg.
  rewrite Hk, forEach_app in Hg.
  destruct (forEach (visitParent blockMap) ks1 init) as [st1| |] eqn:H1;
    try discriminate.
  cbn [bind forEach] in Hg.
  rewrite visitParent_childIds, Hc, forEach_app in Hg.
  destruct (parents_invariant blockMap
              (fun seen gs _ => List.concat gs = seen
                                /\ Forall (fun g : list ID => g <> []) gs))
    with (ks := ks1) (seen := @nil ID) (gs := @nil (list ID))
         (st := init) (st' := st1)
    as [gs1 [Ht1 [Hcat1 Hne1]]].
  { intros seen gs tr id [H HF] _. split.
    - now rewrite concat_app, H.
    - apply Forall_app. split; [exact HF|].
      constructor; [discriminate|constructor]. }
  { intros seen gs cur tr id [H HF] _. split.
    - rewrite <- H, !concat_app. simpl. now rewrite !app_nil_r, app_assoc.
    - apply Forall_app in HF. destruct HF as [HF _].
      apply Forall_app. split; [exact HF|].
      constructor; [|constructor]. now destruct cur. }
  { auto. }
  { exact tracks_init. }
  { split; [reflexivity|constructor]. }
  { exact H1. }
  simpl in Hcat1.
  destruct (parents_tracks blockMap ks1 [] init st1 tracks_init eq_refl H1)
    as [_ Hty1].
  destruct (forEach (visitChild blockMap) pre st1) as [st2| |] eqn:H2;
    try discriminate.
  cbn [bind forEach] in Hg.
  destruct (walk_unresolved_joins blockMap pre gs1 st1 st2 Ht1 Hu H2)
    as [Hty2 Hpre].
  assert (Hgs2 : exists gs2,
             tracks gs2 st2
             /\ List.concat gs2 = flat_map (Graph.childIds blockMap) ks1 ++ pre
             /\ (pre <> [] ->
                 exists gs0 g, g <> [] /\ gs2 = gs0 ++ [g ++ pre])).
  { destruct Hpre as [[-> Ht2]|[gs0 [g [-> Ht2]]]].
    - exists gs1. split; [exact Ht2|]. split; [now rewrite app_nil_r|].
      intros H. now destruct H.
    - exists (gs0 ++ [g ++ pre]). split; [exact Ht2|]. split.
      + rewrite <- Hcat1, !concat_app. simpl.
        now rewrite !app_nil_r, app_assoc.
      + intros _. exists gs0, g. split; [|reflexivity].
        apply Forall_app in Hne1. destruct Hne1 as [_ Hne1].
        now apply Forall_inv in Hne1. }
  destruct Hgs2 as [gs2 [Ht2 [Hcat2 Hlast]]].
  assert (Hs : startsGroup blockMap (type st2) c = true).
  { unfold startsGroup. rewrite Htc, Hty2, Hty1.
    now destruct (typeAt blockMap c). }
  rewrite (visitChild_opens blockMap gs2 st2 c Ht2 Hs) in Hg.
  cbn [bind] in Hg.
  destruct (walk_groupsFrom blockMap rest gs2 [c]
              {| groups := JSArray.dense (gs2 ++ [[c]]);
                 type := typeAt blockMap c;
                 index := (index st2 + 1)%Z |})
    as [st3 [gs3 [cur3 [H3 [Ht3 He]]]]].
  { split; simpl; [reflexivity|].
    destruct Ht2 as [_ ->]. rewrite !length_app; simpl. lia. }
  rewrite H3 in Hg. cbn [bind] in Hg.
  destruct (parents_groupsFrom blockMap ks2 gs3 cur3 _
              (tracks_reset _ _ Ht3)) as [st4 [H4 [Hg4 _]]].
  rewrite H4 in Hg. cbn [bind] in Hg. injection Hg as <-.
  cbn [type] in Hg4, He.
  specialize (He (None :: walkOf blockMap ks2)). cbn [groupsFrom] in He.
  rewrite <- He in Hg4.
  destruct (groupsFrom_head blockMap
              (map Some rest ++ None :: walkOf blockMap ks2)
              (typeAt blockMap c) [c]) as [tail [after E]].
  rewrite E in Hg4. cbn [app] in Hg4.
  exists gs2, tail, after.
  split; [exact Hg4|]. split; [exact Hcat2|exact Hlast].
Qed.

(** Under [q] the absent [m] comes before [b]: [b] starts a group,
    although [a], the last child under [p], has its type, and [m] ends
    the group of [a]. *)
Lemma groupBlocks_first_resolved_child_opens_witness :
  groupBlocks MoreFixtures.acrossParents
  = Ret (JSArray.dense [["a"; "m"]; ["b"]])
  /\ typeAt MoreFixtures.acrossParents "a"
     = typeAt MoreFixtures.acrossParents "b"
  /\ exists before tail after,
      JSArray.dense [["a"; "m"]; ["b"]]
      = JSArray.dense (before ++ ("b" :: tail) :: after)
      /\ List.concat before
         = flat_map (Graph.childIds MoreFixtures.acrossParents) ["p"] ++ ["m"]
      /\ (["m"] <> [] ->
          exists gs0 g, g <> [] /\ before = gs0 ++ [g ++ ["m"]]).
Proof.
  split; [reflexivity|]. split; [reflexivity|].
  assert (Hu : forall x, In x ["m"] ->
                         truthy_str (typeAt MoreFixtures.acrossParents x)
                         = false).
  { intros x [<-|[]]. reflexivity. }
  exact (groupBlocks_first_resolved_child_opens
           MoreFixtures.acrossParents ["p"] "q" ["a"; "b"] ["m"] "b" [] _
           eq_refl eq_refl Hu eq_refl eq_refl).
Defined.


(** ** [transformBlockMap]: the cases of the switch *)

Lemma assoc_absent (A : Type) (k : string) (l : list (string * A)) :
  ~ In k (map fst l) -> assoc k l = None.
Proof.
  induction l as [|[k' a] l IH]; simpl; [reflexivity|]. intros H.
  destruct (String.eqb_spec k' k) as [->|_]; [destruct H; now left|].
  apply IH. intros Hin. apply H. now right.
Qed.

Lemma tagOf_page (ty : string) : tagOf ty = TPage -> ty = "page".
Proof.
  unfold tagOf, labels. cbn [assoc].
  repeat match goal with
         | |- context [String.eqb ?k ty] =>
             destruct (String.eqb_spec k ty) as [<-|_];
             [intros H; first [discriminate H | reflexivity]|]
         end.
  discriminate.
Qed.

Section TransformCases.

Variable T : Type.
Variable Boolean : T -> bool.
Variable getTextContent : option RichText -> TextContent.
Variable findListIndex : ID -> BlockMap -> number.
Variable getTopLevelPageBlock : BlockValue -> BlockMap -> BlockValue.
Variable mapImageURL : option string -> BlockValue -> string.

Local Abbreviation transform :=
  (transformBlockMap Boolean getTextContent findListIndex
                     getTopLevelPageBlock mapImageURL).
Local Abbreviation dispatch :=
  (switch getTextContent findListIndex getTopLevelPageBlock mapImageURL).

Implicit Types (blockMap : BlockMap) (blockId : ID)
         (rules : TransformationRules T) (v : BlockValue).

Lemma switch_kind_shape blockMap blockId v top kind c ids :
  dispatch blockMap blockId v top = Ret (kind, c, ids) ->
  kind = Cases.kindOf top (NotionTypes.type v)
  /\ ids = (if Graph.descends top (NotionTypes.type v)
            then content v else None).
Proof.
  unfold switch, Cases.kindOf, Graph.descends, propertiesOf, firstOfPresent,
    firstStrict.
  destruct (tagOf (NotionTypes.type v)); try destruct top; split_switch;
    intros H; try discriminate H; injection H as <- _ <-;
    split; reflexivity.
Qed.

(** X5. The switch throws exactly on the malformed blocks: a page below
    the top level or a to_do without a properties bag, an equation
    without one or with an empty title, a code block with an empty
    language, a bookmark without a first link span. On every other block
    it completes. *)
Theorem switch_throws_iff_malformed blockMap blockId v top :
  if Cases.malformed top v
  then dispatch blockMap blockId v top = Throw TypeError
  else exists kind c ids, dispatch blockMap blockId v top = Ret (kind, c, ids).
Proof.
  unfold switch, Cases.malformed, Cases.presentEmpty, propertiesOf,
    firstOfPresent, firstStrict, prop.
  destruct (tagOf (NotionTypes.type v)); try destruct top;
    cbn [negb andb bind]; try (do 3 eexists; reflexivity);
    destruct (properties v) as [p|]; cbn [negb andb bind];
    try reflexivity; try (do 3 eexists; reflexivity).
  all: try (destruct (title p) as [[|[s ds] r]|]; cbn [bind];
            first [reflexivity | do 3 eexists; reflexivity]).
  all: try (destruct (language p) as [[|[s ds] r]|]; cbn [bind];
            first [reflexivity | do 3 eexists; reflexivity]).
  all: destruct (link p) as [[|[s ds] r]|]; cbn [bind];
    first [reflexivity | do 3 eexists; reflexivity].
Qed.

Lemma dispatch_maps_descending blockMap blockId v top kind c l :
  dispatch blockMap blockId v top = Ret (kind, c, Some l) ->
  Graph.descends top (NotionTypes.type v) = true.
Proof.
  unfold switch, Graph.descends, propertiesOf, firstOfPresent, firstStrict.
  destruct (tagOf (NotionTypes.type v)); try destruct top; split_switch;
    intros H; try discriminate H; reflexivity.
Qed.

(** X6. A present block without a value, or with a malformed one, makes
    the call throw a [TypeError], whatever the rules (even when none is
    registered for its kind) and whatever its child list. *)
Theorem transform_throws_on_malformed fuel blockMap blockId rules top block :
  get blockMap blockId = Some block ->
  match value block with
  | Some v => Cases.malformed top v = true
  | None => True
  end ->
  transform (S fuel) blockMap blockId rules top = Throw TypeError.
Proof.
  intros Hg Hm. cbn [transformBlockMap]. rewrite Hg. unfold valueOf.
  destruct (value block) as [v|]; [|reflexivity]. cbn [bind].
  enough (E : dispatch blockMap blockId v top = Throw TypeError)
    by (now rewrite E).
  revert Hm.
  unfold switch, Cases.malformed, Cases.presentEmpty, propertiesOf,
    firstOfPresent, firstStrict, prop.
  destruct (tagOf (NotionTypes.type v)); try destruct top;
    cbn [negb andb bind]; try discriminate;
    destruct (properties v) as [p|]; cbn [negb andb bind];
    try discriminate; try reflexivity.
  all: try (destruct (title p) as [[|[s ds] r]|]; cbn [bind];
            first [discriminate | reflexivity]).
  all: try (destruct (language p) as [[|[s ds] r]|]; cbn [bind];
            first [discriminate | reflexivity]).
  all: destruct (link p) as [[|[s ds] r]|]; cbn [bind];
    first [discriminate | reflexivity].
Qed.

(** X7. A block of a type the switch has no case for is handed, with
    [undefined] content and [undefined] children and without its child
    list being read, to whatever [transformationRules[type]] finds. When
    that is a function giving an output (a rule registered under the
    type, or a function inherited under that name such as [toString]),
    its output is returned. When the type is [__proto__],
    [__defineGetter__] or [__defineSetter__] and nothing is registered
    under it, the call throws a [TypeError]. Otherwise the result is
    [undefined]. *)
Theorem transform_unknown_type fuel blockMap blockId rules top block v :
  get blockMap blockId = Some block -> value block = Some v ->
  ~ In (NotionTypes.type v) (map fst labels) ->
  (forall rule,
      rules (NotionTypes.type v) = Some rule ->
      transform (S fuel) blockMap blockId rules top
      = Ret (Some (rule blockId CUndefined None)))
  /\ (rules (NotionTypes.type v) = None ->
      In (NotionTypes.type v)
         ["__proto__"; "__defineGetter__"; "__defineSetter__"] ->
      transform (S fuel) blockMap blockId rules top = Throw TypeError)
  /\ (rules (NotionTypes.type v) = None ->
      ~ In (NotionTypes.type v)
           ["__proto__"; "__defineGetter__"; "__defineSetter__"] ->
      transform (S fuel) blockMap blockId rules top = Ret None).
Proof.
  intros Hg Hv Hty.
  assert (E : transform (S fuel) blockMap blockId rules top
              = applyRule rules (NotionTypes.type v) blockId CUndefined None).
  { rewrite (transform_step T Boolean getTextContent findListIndex
               getTopLevelPageBlock mapImageURL _ _ _ _ _ _ _ Hg Hv).
    unfold switch, tagOf. now rewrite (assoc_absent _ _ _ Hty). }
  rewrite E. unfold applyRule, JSObject.unusable.
  split; [|split].
  - intros rule Hr. now rewrite Hr.
  - intros Hr Hin. rewrite Hr.
    destruct Hin as [<-|[<-|[<-|[]]]]; reflexivity.
  - intros Hr Hn. rewrite Hr.
    destruct (String.eqb_spec (NotionTypes.type v) "__proto__") as [e|_];
      [exfalso; apply Hn; rewrite e; simpl; tauto|].
    destruct (String.eqb_spec (NotionTypes.type v) "__defineGetter__")
      as [e|_]; [exfalso; apply Hn; rewrite e; simpl; tauto|].
    destruct (String.eqb_spec (NotionTypes.type v) "__defineSetter__")
      as [e|_]; [exfalso; apply Hn; rewrite e; simpl; tauto|].
    reflexivity.
Qed.

(** X8. The ratio in the content of a column is never zero: it is the
    [column_ratio] of the format when that is set and not zero, and 0.5
    when the format, or the ratio, is missing or the ratio is zero. *)
Theorem column_ratio_never_zero blockMap blockId v top :
  NotionTypes.type v = "column" ->
  exists r,
    dispatch blockMap blockId v top = Ret ("column", CColumn r, content v)
    /\ Qeq_bool r 0 = false
    /\ (fmt column_ratio v = None -> r = (1 # 2)%Q)
    /\ (forall q, fmt column_ratio v = Some q ->
                  r = if Qeq_bool q 0 then (1 # 2)%Q else q).
Proof.
  intros Hty. exists (orHalf (fmt column_ratio v)). split.
  - unfold switch. now rewrite Hty.
  - unfold orHalf. destruct (fmt column_ratio v) as [q|].
    + destruct (Qeq_bool q 0) eqn:Hq.
      * split; [reflexivity|]. split; [discriminate|].
        intros q' E. injection E as <-. now rewrite Hq.
      * split; [exact Hq|]. split; [discriminate|].
        intros q' E. injection E as <-. now rewrite Hq.
    + split; [reflexivity|]. split; [reflexivity|]. discriminate.
Qed.

(** X9. [isTopLevel] matters for page blocks only: on a block of any
    other type, or absent, the call is the same with either flag. *)
Theorem transform_flag_only_for_pages fuel blockMap blockId rules :
  (forall v, valueAt blockMap blockId = Some v ->
             NotionTypes.type v <> "page") ->
  transform fuel blockMap blockId rules true
  = transform fuel blockMap blockId rules false.
Proof.
  intros Hty. destruct fuel as [|fuel]; [reflexivity|].
  cbn [transformBlockMap]. unfold valueAt in Hty.
  destruct (get blockMap blockId) as [block|]; [|reflexivity].
  unfold valueOf. destruct (value block) as [v|]; [|reflexivity].
  cbn [bind]. specialize (Hty v eq_refl).
  enough (E : dispatch blockMap blockId v true = dispatch blockMap blockId v false)
    by (now rewrite E).
  unfold switch. destruct (tagOf (NotionTypes.type v)) eqn:Etag;
    try reflexivity.
  destruct Hty. now apply tagOf_page.
Qed.

Lemma mapM_skips_absent (f : ID -> outcome (option T)) blockMap l : forall rs,
  (forall id, In id l -> Cases.present blockMap id = false -> f id = Ret None) ->
  Forall2 (fun id r => f id = Ret r) (filter (Cases.present blockMap) l) rs ->
  exists rs', mapM f l = Ret rs'
              /\ filterBoolean Boolean rs' = filterBoolean Boolean rs.
Proof.
  intros rs Habs. revert rs.
  induction l as [|id l IH]; intros rs H; cbn [filter] in H.
  - inversion H; subst. now exists [].
  - assert (Habs' : forall id', In id' l -> Cases.present blockMap id' = false ->
                                f id' = Ret None)
      by (intros id' Hin; apply Habs; now right).
    destruct (Cases.present blockMap id) eqn:Hp.
    + inversion H as [|? r ? rs0 Hid Hrest]; subst.
      destruct (IH Habs' rs0 Hrest) as [rs' [Hm Hf]].
      exists (r :: rs'). cbn [mapM]. rewrite Hid, Hm. cbn [bind].
      split; [reflexivity|]. simpl. now rewrite Hf.
    + destruct (IH Habs' rs H) as [rs' [Hm Hf]].
      exists (None :: rs'). cbn [mapM].
      rewrite (Habs id (or_introl eq_refl) Hp), Hm. cbn [bind].
      split; [reflexivity|exact Hf].
Qed.

(** The kind of a block whose child list the switch maps is a name that
    [Object.prototype] gives no unusable member for. *)
Lemma descends_usable top ty :
  Graph.descends top ty = true ->
  JSObject.unusable (Cases.kindOf top ty) = false.
Proof.
  intros Hd. unfold JSObject.unusable.
  destruct (String.eqb_spec ty "__proto__") as [->|n1]; [discriminate Hd|].
  destruct (String.eqb_spec ty "__defineGetter__") as [->|n2];
    [discriminate Hd|].
  destruct (String.eqb_spec ty "__defineSetter__") as [->|n3];
    [discriminate Hd|].
  revert Hd. unfold Graph.descends, Cases.kindOf.
  destruct (tagOf ty); try discriminate; intros Hd;
    try (destruct top; [|discriminate Hd]);
    repeat match goal with
           | |- context [String.eqb ty ?k] =>
               destruct (String.eqb_spec ty k); [contradiction|]
           end; reflexivity.
Qed.

(** X10. Child identifiers that name nothing count for nothing. Take a
    block whose child list is mapped, and let every listed identifier
    that is no key of the map be no member name of [Object.prototype]
    either. When the calls on the children that are keys of the map
    return [rs], the function found under the kind of the block receives
    the truthy entries of [rs], as if the other identifiers were not
    listed; with nothing found under the kind, the result is
    [undefined]. *)
Theorem transform_skips_absent_children fuel blockMap blockId rules top
        block v kind c l rs :
  get blockMap blockId = Some block -> value block = Some v ->
  dispatch blockMap blockId v top = Ret (kind, c, Some l) ->
  (forall id, In id l -> get blockMap id = None ->
              JSObject.inherited id = false) ->
  Forall2 (fun id r => transform (S fuel) blockMap id rules false = Ret r)
          (filter (Cases.present blockMap) l) rs ->
  (forall rule,
      rules kind = Some rule ->
      transform (S (S fuel)) blockMap blockId rules top
      = Ret (Some (rule blockId c (Some (Cases.truthyOnes Boolean rs)))))
  /\ (rules kind = None ->
      transform (S (S fuel)) blockMap blockId rules top = Ret None).
Proof.
  intros Hg Hv Hd Hown Hall.
  assert (E : transform (S (S fuel)) blockMap blockId rules top
              = Ret (callRule rules kind blockId c
                              (Some (Cases.truthyOnes Boolean rs)))).
  { rewrite (transform_step T Boolean getTextContent findListIndex
               getTopLevelPageBlock mapImageURL _ _ _ _ _ _ _ Hg Hv), Hd.
    cbn [bind mapOpt].
    destruct (mapM_skips_absent
                (fun id => transform (S fuel) blockMap id rules false)
                blockMap l rs) as [rs' [-> Hf]]; [|exact Hall|].
    - intros id Hin Hp. cbn [transformBlockMap]. unfold Cases.present in Hp.
      specialize (Hown id Hin).
      destruct (get blockMap id); [discriminate Hp|].
      now rewrite (Hown eq_refl).
    - cbn [bind option_map].
      rewrite Hf, (filterBoolean_truthyOnes T Boolean).
      apply applyRule_usable.
      destruct (switch_kind_shape blockMap blockId v top kind c (Some l) Hd)
        as [-> Hids].
      apply descends_usable.
      destruct (Graph.descends top (NotionTypes.type v));
        [reflexivity|discriminate Hids]. }
  rewrite E. unfold callRule. split.
  - intros rule Hr. now rewrite Hr.
  - intros Hr. now rewrite Hr.
Qed.

Lemma filterBoolean_truthy (rs : list (option T)) :
  Forall (fun t => Boolean t = true) (filterBoolean Boolean rs)
  /\ length (filterBoolean Boolean rs) <= length rs.
Proof.
  induction rs as [|[t|] rs [IH1 IH2]]; simpl.
  - split; [constructor|lia].
  - destruct (Boolean t) eqn:Ht; simpl; split;
      [now constructor|lia|exact IH1|lia].
  - split; [exact IH1|lia].
Qed.

Lemma mapM_length (A B : Type) (f : A -> outcome B) l : forall rs,
  mapM f l = Ret rs -> length rs = length l.
Proof.
  induction l as [|a l IH]; intros rs H; simpl in H.
  - now injection H as <-.
  - destruct (f a); try discriminate. simpl in H.
    destruct (mapM f l) as [rs0| |]; try discriminate.
    simpl in H. injection H as <-. simpl. now rewrite (IH rs0).
Qed.

(** X14. What a rule receives. Whenever the call returns a value, it is
    the value of the function that [transformationRules] holds under the
    kind of the block (a registered rule, or a function inherited under
    that name): the type of the block, but [pageLink] for a page below
    the top level and [header] for the header types. The children given
    to it are a list exactly when the type is one the switch maps the
    child list of (toggle, the list types, to_do, column_list, column, a
    page at the top level) and the block has a child list; the list then
    holds truthy outputs only and is no longer than the child list.
    Otherwise they are [undefined]. *)
Theorem transform_rule_arguments fuel blockMap blockId rules top t :
  transform (S fuel) blockMap blockId rules top = Ret (Some t) ->
  exists v rule c children,
    valueAt blockMap blockId = Some v
    /\ rules (Cases.kindOf top (NotionTypes.type v)) = Some rule
    /\ t = rule blockId c children
    /\ match children with
       | Some l => Graph.descends top (NotionTypes.type v) = true
                   /\ content v <> None
                   /\ Forall (fun t' => Boolean t' = true) l
                   /\ length l <= length (Graph.childIds blockMap blockId)
       | None => Graph.descends top (NotionTypes.type v) = false
                 \/ content v = None
       end.
Proof.
  cbn [transformBlockMap]. unfold valueAt, Graph.childIds, valueAt, valueOf.
  destruct (get blockMap blockId) as [block|];
    [|destruct (JSObject.inherited blockId); discriminate].
  destruct (value block) as [v|]; cbn [bind]; [|discriminate].
  destruct (dispatch blockMap blockId v top) as [[[kind c] ids]| |] eqn:Hd;
    cbn [bind]; try discriminate.
  destruct (switch_kind_shape blockMap blockId v top kind c ids Hd) as [-> Hids].
  destruct (mapOpt (fun id => transform fuel blockMap id rules false) ids)
    as [children| |] eqn:Hm; cbn [bind]; try discriminate.
  unfold applyRule.
  destruct (rules (Cases.kindOf top (NotionTypes.type v))) as [rule|] eqn:Hr;
    [|destruct (JSObject.unusable _); discriminate].
  intros H. injection H as <-.
  exists v, rule, c, (option_map (filterBoolean Boolean) children).
  split; [reflexivity|]. split; [exact Hr|]. split; [reflexivity|].
  destruct ids as [l|]; cbn [mapOpt] in Hm.
  - destruct (mapM (fun id => transform fuel blockMap id rules false) l)
      as [rs| |] eqn:Hl; try discriminate.
    cbn [bind] in Hm. injection Hm as <-. cbn [option_map].
    destruct (filterBoolean_truthy rs) as [H1 H2].
    rewrite (mapM_length _ _ _ _ _ Hl) in H2.
    destruct (Graph.descends top (NotionTypes.type v)); [|discriminate].
    split; [reflexivity|]. split; [now rewrite <- Hids|].
    split; [exact H1|]. now rewrite <- Hids.
  - injection Hm as <-. cbn [option_map].
    destruct (Graph.descends top (NotionTypes.type v));
      [right; now symmetry|now left].
Qed.

Lemma mapM_throws (f : ID -> outcome (option T)) l1 y l2 e :
  Forall (fun id => exists r, f id = Ret r) l1 ->
  f y = Throw e ->
  mapM f (l1 ++ y :: l2) = Throw e.
Proof.
  intros Hl Hy. induction Hl as [|id l1 [r Hid] _ IH]; cbn [app mapM].
  - now rewrite Hy.
  - rewrite Hid, IH. reflexivity.
Qed.

(** X11. Nothing catches the error of a child: when the calls on the
    children before [y] return and the call on [y] throws, the call on
    the block throws the same error, and no rule is called for it. *)
Theorem transform_child_error_propagates fuel blockMap blockId rules top
        block v kind c l1 y l2 e :
  get blockMap blockId = Some block -> value block = Some v ->
  dispatch blockMap blockId v top = Ret (kind, c, Some (l1 ++ y :: l2)) ->
  Forall (fun id => exists r, transform fuel blockMap id rules false = Ret r)
         l1 ->
  transform fuel blockMap y rules false = Throw e ->
  transform (S fuel) blockMap blockId rules top = Throw e.
Proof.
  intros Hg Hv Hd Hl Hy.
  rewrite (transform_step T Boolean getTextContent findListIndex
             getTopLevelPageBlock mapImageURL _ _ _ _ _ _ _ Hg Hv), Hd.
  cbn [bind mapOpt].
  now rewrite (mapM_throws
                 (fun id => transform fuel blockMap id rules false)
                 l1 y l2 e Hl Hy).
Qed.

(** *** Termination when no mapping call leads back *)

Lemma callsOn_keys blockMap top x y :
  Graph.callsOn blockMap top x y -> In x (keys blockMap).
Proof.
  intros [v [_ [_ Hc]]].
  exact (childOf_keys blockMap x y Hc).
Qed.

Lemma call_chain_bound blockMap :
  Calls.noCallCycle blockMap ->
  forall k seen x,
    NoDup seen -> incl seen (keys blockMap) ->
    (forall s, In s seen ->
               clos_trans ID (Graph.callsOn blockMap false) s x) ->
    length (keys blockMap) - length seen <= k ->
    ~ Calls.callChain blockMap (S k) false x.
Proof.
  intros Hac. induction k as [|k IH]; intros seen x Hnd Hincl Hanc Hk Hch;
    inversion Hch as [|n top x' y Hxy Hy]; subst;
    assert (Hx : ~ In x seen) by (intros Hs; exact (Hac x (Hanc x Hs)));
    assert (Hlen : length (x :: seen) <= length (keys blockMap))
      by (apply NoDup_incl_length; [now constructor|];
          intros z [<-|Hz]; [exact (callsOn_keys _ _ _ _ Hxy)|now apply Hincl]).
  - simpl in Hlen. lia.
  - apply (IH (x :: seen) y); [now constructor| | | |exact Hy].
    + intros z [<-|Hz]; [exact (callsOn_keys _ _ _ _ Hxy)|now apply Hincl].
    + intros s [<-|Hs]; [now apply t_step|].
      eapply t_trans; [exact (Hanc s Hs)|now apply t_step].
    + simpl in *. lia.
Qed.

Lemma transform_within_callChain n : forall blockMap x rules top,
  ~ Calls.callChain blockMap n top x ->
  transform n blockMap x rules top <> Diverge.
Proof.
  induction n as [|n IH]; intros blockMap x rules top Hc.
  - destruct Hc. constructor.
  - cbn [transformBlockMap].
    destruct (get blockMap x) as [block|] eqn:Hg;
      [|destruct (JSObject.inherited x); discriminate].
    unfold valueOf. destruct (value block) as [v|] eqn:Hv;
      cbn [bind]; [|discriminate].
    pose proof (dispatch_comes_back getTextContent findListIndex
                  getTopLevelPageBlock mapImageURL blockMap x v top) as Hs.
    destruct (dispatch blockMap x v top) as [[[kind c] ids]| |] eqn:Hd;
      cbn [bind]; [|discriminate|now destruct Hs].
    destruct ids as [l|]; cbn [mapOpt bind];
      [|apply applyRule_comes_back].
    assert (Hl : mapM (fun id => transform n blockMap id rules false) l
                 <> Diverge).
    { apply mapM_comes_back. intros y Hy. apply IH. intros Hcy.
      apply Hc. apply Calls.callChain_S with (y := y); [|exact Hcy].
      exists v. split; [unfold valueAt; now rewrite Hg|].
      split; [exact (dispatch_maps_descending _ _ _ _ _ _ _ Hd)|].
      unfold Graph.childOf, Graph.childIds, valueAt.
      rewrite Hg, Hv,
        (dispatch_ids getTextContent findListIndex
           getTopLevelPageBlock mapImageURL _ _ _ _ _ _ _ Hd).
      exact Hy. }
    destruct (mapM _ l); cbn [bind];
      [apply applyRule_comes_back|discriminate|].
    now destruct Hl.
Qed.

(** X12. The call comes back on every map in which no block below the
    root leads back to itself through mapping calls, with the same
    outcome for every fuel from some bound on. A cycle of child
    references that passes through a page is no obstacle: below the root
    a page is a link and its child list is not read. *)
Theorem transform_terminates_without_call_cycle blockMap root rules top :
  Calls.noCallCycle blockMap ->
  exists fuel r,
    r <> Diverge
    /\ forall fuel', fuel <= fuel' ->
                     transform fuel' blockMap root rules top = r.
Proof.
  intros Hac. set (n := S (S (length (keys blockMap)))).
  assert (Hn : transform n blockMap root rules top <> Diverge).
  { apply transform_within_callChain. intros Hch.
    inversion Hch as [|m top' x y Hxy Hy]; subst.
    apply (call_chain_bound blockMap Hac (length (keys blockMap)) [] y);
      [constructor|intros z []|intros s []|simpl; lia|exact Hy]. }
  exists n, (transform n blockMap root rules top).
  split; [exact Hn|]. intros fuel' Hle.
  now apply (transform_more_fuel T Boolean getTextContent findListIndex
               getTopLevelPageBlock mapImageURL).
Qed.

(** *** The table of contents and the headers *)

Lemma filterObjects_In (A : Type) (xs : list (option A)) (a : A) :
  In a (filterObjects xs) -> In (Some a) xs.
Proof.
  induction xs as [|[x|] xs IH]; simpl; [intros []| |].
  - intros [->|H]; [now left|right; now apply IH].
  - intros H. right. now apply IH.
Qed.

(** X13. Every entry of a table of contents is for a child of the page
    that is in the map as a header block, and it carries the text and
    the level that the call on that block gives to the rule of [header]:
    the entry [{ id, level, text }] and the header node of [id] agree. *)
Theorem toc_entry_matches_header fuel blockMap page rules top e :
  In e (tocContent getTextContent blockMap page) ->
  In (toc_id e) (orEmpty (content page))
  /\ transform (S fuel) blockMap (toc_id e) rules top
     = Ret (callRule rules "header" (toc_id e)
                     (CHeader (toc_text e) (toc_level e)) None).
Proof.
  unfold tocContent. intros Hin. apply filterObjects_In in Hin.
  apply in_map_iff in Hin. destruct Hin as [id [He Hid]].
  unfold tocEntry in He.
  destruct (valueAt blockMap id) as [bv|] eqn:Hbv; [|discriminate].
  destruct (valueAt_get _ _ _ Hbv) as [block [Hg Hv]].
  assert (Hsw : dispatch blockMap id bv top
                = Ret ("header",
                       CHeader (getTextContent (prop title bv))
                               (headerLevel (NotionTypes.type bv)), None)).
  { unfold switch.
    destruct (String.eqb_spec (NotionTypes.type bv) "header") as [E|_];
      [now rewrite E|].
    destruct (String.eqb_spec (NotionTypes.type bv) "sub_header") as [E|_];
      [now rewrite E|].
    destruct (String.eqb_spec (NotionTypes.type bv) "sub_sub_header")
      as [E|_]; [now rewrite E|discriminate]. }
  destruct (String.eqb (NotionTypes.type bv) "header"
            || String.eqb (NotionTypes.type bv) "sub_header"
            || String.eqb (NotionTypes.type bv) "sub_sub_header");
    [|discriminate].
  injection He as <-. cbn [toc_id toc_level toc_text].
  split; [exact Hid|].
  exact (transform_leaf T Boolean getTextContent findListIndex
           getTopLevelPageBlock mapImageURL _ _ _ _ _ _ _ _ _ Hg Hv Hsw
           eq_refl).
Qed.

End TransformCases.

(** ** The further properties at concrete inputs *)

Section MoreConcrete.

Import Fixtures MoreFixtures.

Lemma groupBlocks_partitions_witness :
  groupBlocks missingMiddle = Ret (JSArray.dense [["a"; "m"; "b"]])
  /\ exists gs,
      JSArray.dense [["a"; "m"; "b"]] = JSArray.dense gs
      /\ List.concat gs = ["a"; "m"; "b"].
Proof.
  split; [reflexivity|].
  exact (groupBlocks_partitions missingMiddle _ eq_refl).
Defined.

Lemma groupBlocks_no_empty_group_witness :
  groupBlocks fourChildren
  = Ret (JSArray.dense [["a"; "b"]; ["c"]; ["d"]])
  /\ ["c"] <> @nil ID.
Proof.
  split; [reflexivity|].
  exact (groupBlocks_no_empty_group fourChildren _ ["c"] eq_refl
           (or_intror (or_introl eq_refl))).
Defined.

Lemma groupBlocks_groups_of_one_type_witness :
  groupBlocks missingMiddle = Ret (JSArray.dense [["a"; "m"; "b"]])
  /\ Groups.sameType missingMiddle ["a"; "m"; "b"].
Proof.
  split; [reflexivity|].
  exact (groupBlocks_groups_of_one_type missingMiddle _ ["a"; "m"; "b"]
           eq_refl (or_introl eq_refl)).
Defined.

Lemma transform_throws_on_malformed_witness :
  valueAt withBareTodo "k" = Some bareTodo
  /\ Cases.malformed false bareTodo = true
  /\ run 1 withBareTodo "k" recording false = Throw TypeError
  /\ get withBareTodo "v" = Some {| value := None |}
  /\ run 1 withBareTodo "v" zeroText true = Throw TypeError.
Proof.
  split; [reflexivity|]. split; [reflexivity|]. split; [|split].
  - exact (transform_throws_on_malformed out outBoolean textOf listIndex
             topPage imageURL 0 withBareTodo "k" recording false _
             eq_refl eq_refl).
  - reflexivity.
  - exact (transform_throws_on_malformed out outBoolean textOf listIndex
             topPage imageURL 0 withBareTodo "v" zeroText true _
             eq_refl I).
Defined.

Lemma embed_unlisted : ~ In "embed" (map fst labels).
Proof.
  simpl. intros H.
  repeat (destruct H as [H|H]; [discriminate H|]). exact H.
Qed.

Lemma oddTypes_unlisted :
  ~ In "toString" (map fst labels) /\ ~ In "__proto__" (map fst labels).
Proof.
  split; simpl; intros H;
    repeat (destruct H as [H|H]; [discriminate H|]); exact H.
Qed.

Lemma embed_is_usable :
  ~ In "embed" ["__proto__"; "__defineGetter__"; "__defineSetter__"].
Proof.
  simpl. intros H.
  repeat (destruct H as [H|H]; [discriminate H|]). exact H.
Qed.

(** A registered rule is called on an [embed]; with the object literal
    [{}] as rules, a block of type [toString] comes back as the string
    of the rules object, a block of type [__proto__] throws, and an
    [embed] gives [undefined]. *)
Lemma transform_unknown_type_witness :
  run 1 embedded "e" recording true
  = Ret (Some (Node "embed" "e" CUndefined None))
  /\ transformBlockMap jsBoolean textOf listIndex topPage imageURL
                       1 oddTypes "s" emptyObject false
     = Ret (Some (JString "[object Object]"))
  /\ transformBlockMap jsBoolean textOf listIndex topPage imageURL
                       1 oddTypes "u" emptyObject false
     = Throw TypeError
  /\ transformBlockMap jsBoolean textOf listIndex topPage imageURL
                       1 oddTypes "e" emptyObject false
     = Ret None.
Proof.
  split; [|split; [|split]].
  - exact (proj1 (transform_unknown_type out outBoolean textOf listIndex
                    topPage imageURL 0 embedded "e" recording true _ _
                    eq_refl eq_refl embed_unlisted)
                 (Node "embed") eq_refl).
  - exact (proj1 (transform_unknown_type jsValue jsBoolean textOf listIndex
                    topPage imageURL 0 oddTypes "s" emptyObject false _ _
                    eq_refl eq_refl (proj1 oddTypes_unlisted))
                 (fun _ _ _ => JString "[object Object]") eq_refl).
  - exact (proj1 (proj2 (transform_unknown_type jsValue jsBoolean textOf
                           listIndex topPage imageURL 0 oddTypes "u"
                           emptyObject false _ _ eq_refl eq_refl
                           (proj2 oddTypes_unlisted)))
                 eq_refl (or_introl eq_refl)).
  - exact (proj2 (proj2 (transform_unknown_type jsValue jsBoolean textOf
                           listIndex topPage imageURL 0 oddTypes "e"
                           emptyObject false _ _ eq_refl eq_refl
                           embed_unlisted))
                 eq_refl embed_is_usable).
Defined.

Lemma column_ratio_never_zero_witness :
  exists r,
    switch textOf listIndex topPage imageURL [] "c" columnValue false
    = Ret ("column", CColumn r, Some ["a"])
    /\ Qeq_bool r 0 = false
    /\ (fmt column_ratio columnValue = None -> r = (1 # 2)%Q)
    /\ (forall q, fmt column_ratio columnValue = Some q ->
                  r = if Qeq_bool q 0 then (1 # 2)%Q else q).
Proof.
  exact (column_ratio_never_zero textOf listIndex topPage imageURL
           [] "c" columnValue false eq_refl).
Defined.

Lemma document_a_is_text v :
  valueAt document "a" = Some v -> NotionTypes.type v <> "page".
Proof. intros H. injection H as <-. discriminate. Qed.

Lemma transform_flag_only_for_pages_witness :
  run 1 document "a" recording true = run 1 document "a" recording false.
Proof.
  exact (transform_flag_only_for_pages out outBoolean textOf listIndex
           topPage imageURL 1 document "a" recording document_a_is_text).
Defined.

Lemma missingMiddle_absent id :
  In id ["a"; "m"; "b"] -> get missingMiddle id = None ->
  JSObject.inherited id = false.
Proof.
  intros [<-|[<-|[<-|[]]]] _; reflexivity.
Qed.

Lemma transform_skips_absent_children_witness :
  filter (Cases.present missingMiddle) ["a"; "m"; "b"] = ["a"; "b"]
  /\ run 2 missingMiddle "p" recording true
     = Ret (Some (Node "page" "p" CUndefined
              (Some [ Node "text" "a"
                        (CText (Some [{| text := "A"; marks := [] |}])) None;
                      Node "text" "b"
                        (CText (Some [{| text := "B"; marks := [] |}])) None ]))).
Proof.
  split; [reflexivity|].
  assert (H : Forall2
                (fun id r => run 1 missingMiddle id recording false = Ret r)
                (filter (Cases.present missingMiddle) ["a"; "m"; "b"])
                [ Some (Node "text" "a"
                          (CText (Some [{| text := "A"; marks := [] |}])) None);
                  Some (Node "text" "b"
                          (CText (Some [{| text := "B"; marks := [] |}])) None) ]).
  { change (filter (Cases.present missingMiddle) ["a"; "m"; "b"])
      with ["a"; "b"].
    constructor; [reflexivity|]. constructor; [reflexivity|constructor]. }
  exact (proj1 (transform_skips_absent_children out outBoolean textOf
                  listIndex topPage imageURL 0 missingMiddle "p" recording
                  true _ _ "page" CUndefined ["a"; "m"; "b"] _
                  eq_refl eq_refl eq_refl missingMiddle_absent H)
               (Node "page") eq_refl).
Defined.

Lemma transform_child_error_propagates_witness :
  run 1 withBareTodo "a" recording false
  = Ret (Some (Node "text" "a"
                    (CText (Some [{| text := "A"; marks := [] |}])) None))
  /\ run 1 withBareTodo "k" recording false = Throw TypeError
  /\ run 2 withBareTodo "root" recording true = Throw TypeError.
Proof.
  split; [reflexivity|]. split; [reflexivity|].
  eapply (transform_child_error_propagates out outBoolean textOf listIndex
           topPage imageURL 1 withBareTodo "root" recording true _ _
           "page" CUndefined ["a"] "k" ["b"] TypeError);
    [reflexivity|reflexivity|reflexivity| |reflexivity].
  constructor; [eexists; reflexivity|constructor].
Defined.

Lemma ranked_no_call_cycle blockMap (rk : ID -> nat) :
  (forall x y, Graph.callsOn blockMap false x y -> rk y < rk x) ->
  Calls.noCallCycle blockMap.
Proof.
  intros Hr.
  assert (H : forall x y,
             clos_trans ID (Graph.callsOn blockMap false) x y -> rk y < rk x).
  { induction 1 as [x y Hxy|x y z _ IH1 _ IH2]; [now apply Hr|lia]. }
  intros x Hx. specialize (H x x Hx). lia.
Qed.

Lemma throughPage_no_call_cycle : Calls.noCallCycle throughPage.
Proof.
  apply (ranked_no_call_cycle throughPage callRank).
  intros x y [v [Hv [Hd Hc]]]. revert Hv Hd Hc.
  unfold Graph.childOf, Graph.childIds, valueAt, throughPage. cbn [get].
  destruct (String.eqb_spec "root" x) as [<-|_].
  { cbn. intros H. injection H as <-. discriminate. }
  destruct (String.eqb_spec "t" x) as [<-|_]; [|discriminate].
  cbn. intros _ _ [<-|[]]. vm_compute. lia.
Qed.

Lemma transform_terminates_without_call_cycle_witness :
  Graph.childOf throughPage "root" "t" /\ Graph.childOf throughPage "t" "root"
  /\ Calls.noCallCycle throughPage
  /\ exists fuel r,
      r <> Diverge
      /\ forall fuel', fuel <= fuel' ->
                       run fuel' throughPage "root" recording true = r.
Proof.
  split; [now left|]. split; [now left|].
  split; [exact throughPage_no_call_cycle|].
  exact (transform_terminates_without_call_cycle out outBoolean textOf
           listIndex topPage imageURL throughPage "root" recording true
           throughPage_no_call_cycle).
Defined.

Lemma toc_entry_matches_header_witness :
  In "h3" ["h1"; "t"; "toc"; "gone"; "h3"; "h2"]
  /\ run 1 withHeaders "h3" recording false
     = Ret (Some (Node "header" "h3"
                       (CHeader (Some [{| text := "Three"; marks := [] |}])
                                (Some 3%Z))
                       None)).
Proof.
  exact (toc_entry_matches_header out outBoolean textOf listIndex topPage
           imageURL 0 withHeaders (topPage bareTodo withHeaders)
           recording false
           {| toc_id := "h3"; toc_level := Some 3%Z;
              toc_text := Some [{| text := "Three"; marks := [] |}] |}
           (or_intror (or_introl eq_refl))).
Defined.

Lemma transform_rule_arguments_witness :
  exists v rule c children,
    valueAt document "root" = Some v
    /\ recording (Cases.kindOf true (NotionTypes.type v)) = Some rule
    /\ Node "page" "root" CUndefined
            (Some [ Node "text" "a"
                      (CText (Some [{| text := "Hello"; marks := [] |}])) None;
                    Node "to_do" "b"
                      (CTodo (Some [{| text := "Buy milk"; marks := [] |}])
                             false) None ])
       = rule "root" c children
    /\ match children with
       | Some l => Graph.descends true (NotionTypes.type v) = true
                   /\ content v <> None
                   /\ Forall (fun t' => outBoolean t' = true) l
                   /\ length l <= length (Graph.childIds document "root")
       | None => Graph.descends true (NotionTypes.type v) = false
                 \/ content v = None
       end.
Proof.
  exact (transform_rule_arguments out outBoolean textOf listIndex topPage
           imageURL 1 document "root" recording true _ eq_refl).
Defined.

End MoreConcrete.
